(** * virtcap.c: the fixed-point virtual capacitor of the PRU0 firmware

    Shallow embedding of [software/firmware/pru0-shepherd-fw/virtcap.c] and
    the properties its specification states about it.

    Conventions of the embedding.
    - A C object of type [uint32_t] is a [Z] in [0, 2^32); one of type
      [int32_t] is a [Z] in [-2^31, 2^31).  Every C operator is followed by
      the reduction into the range of its result type, written out.
    - An operand of a C operator carries its type ([cint]), so that the usual
      arithmetic conversions of the source expressions are the ones C picks:
      [uint32_t] as soon as one operand is unsigned, [int32_t] otherwise.
    - Division by zero, and [INT_MIN / -1], have no result ([None]).  Signed
      overflow and the left shift of a negative value wrap in two's
      complement, which is what the compilers of the target do. *)

From Stdlib Require Import ZArith Lia List Bool.
Import ListNotations.
Local Open Scope Z_scope.

(** ** C integers of 32 bits *)

Module C32.

Inductive ctype : Type := U32 | I32.

Definition ctype_eqb (a b : ctype) : bool :=
  match a, b with
  | U32, U32 | I32, I32 => true
  | _, _ => false
  end.

(** Reduction of a mathematical integer into the range of a type. *)
Definition norm (t : ctype) (x : Z) : Z :=
  match t with
  | U32 => x mod 2^32
  | I32 => (x + 2^31) mod 2^32 - 2^31
  end.

Definition in_range (t : ctype) (x : Z) : Prop :=
  match t with
  | U32 => 0 <= x < 2^32
  | I32 => - 2^31 <= x < 2^31
  end.

Record cint : Type := CInt { ctype_of : ctype; value : Z }.

(** Usual arithmetic conversions: the common type of two operands. *)
Definition join (a b : ctype) : ctype :=
  match a, b with
  | I32, I32 => I32
  | _, _ => U32
  end.

(** Conversion (cast, assignment, argument passing). *)
Definition conv (t : ctype) (a : cint) : cint := CInt t (norm t (value a)).

Definition u32 (x : Z) : cint := CInt U32 (norm U32 x).
Definition i32 (x : Z) : cint := CInt I32 (norm I32 x).

Definition arith (f : Z -> Z -> Z) (a b : cint) : cint :=
  let t := join (ctype_of a) (ctype_of b) in
  CInt t (norm t (f (value (conv t a)) (value (conv t b)))).

Definition cadd : cint -> cint -> cint := arith Z.add.
Definition csub : cint -> cint -> cint := arith Z.sub.
Definition cmul : cint -> cint -> cint := arith Z.mul.

(** [a / b]: truncation toward zero in the common type. *)
Definition cdiv (a b : cint) : option cint :=
  let t := join (ctype_of a) (ctype_of b) in
  let x := value (conv t a) in
  let y := value (conv t b) in
  if y =? 0 then None
  else if ctype_eqb t I32 && (x =? - 2^31) && (y =? -1) then None
  else Some (CInt t (Z.quot x y)).

(** [a << n] and [a >> n] keep the type of the left operand; [>>] of a
    negative signed value is the arithmetic shift. *)
Definition cshl (a : cint) (n : Z) : cint :=
  let t := ctype_of a in CInt t (norm t (Z.shiftl (value (conv t a)) n)).

Definition cshr (a : cint) (n : Z) : cint :=
  let t := ctype_of a in CInt t (Z.shiftr (value (conv t a)) n).

Definition cmp (f : Z -> Z -> bool) (a b : cint) : bool :=
  let t := join (ctype_of a) (ctype_of b) in
  f (value (conv t a)) (value (conv t b)).

Definition cge : cint -> cint -> bool := cmp Z.geb.
Definition clt : cint -> cint -> bool := cmp Z.ltb.
Definition cgt : cint -> cint -> bool := cmp Z.gtb.

End C32.

Import C32.

(** Sequencing of the computations that may have no result. *)
Definition bind {A B : Type} (m : option A) (k : A -> option B) : option B :=
  match m with
  | Some a => k a
  | None => None
  end.

Notation "x <- m ;; k" := (bind m (fun x => k))
  (at level 61, m at next level, right associativity).

(** ** SquareRootRounded (virtcap.c, lines 42-73)

    All the variables of the function are [uint32_t]; they are kept as
    plain [Z] and every operator is followed by its reduction mod 2^32. *)

Definition w32 (x : Z) : Z := x mod 2^32.

(** [while (one > op) one >>= 2;] *)
Fixpoint sqrt_find_one (fuel : nat) (op one : Z) : option Z :=
  match fuel with
  | O => None
  | S fuel' =>
      if one >? op then sqrt_find_one fuel' op (Z.shiftr one 2)
      else Some one
  end.

(** [while (one != 0) { if (op >= res + one) {...} res >>= 1; one >>= 2; }];
    the result is the pair (op, res) at the exit of the loop. *)
Fixpoint sqrt_loop (fuel : nat) (op res one : Z) : option (Z * Z) :=
  match fuel with
  | O => None
  | S fuel' =>
      if negb (one =? 0) then
        let '(op1, res1) :=
          if op >=? w32 (res + one)
          then (w32 (op - w32 (res + one)), w32 (res + w32 (2 * one)))
          else (op, res) in
        sqrt_loop fuel' op1 (Z.shiftr res1 1) (Z.shiftr one 2)
      else Some (op, res)
  end.

(** Each loop shifts [one], which starts at [1 << 30], right by two bits per
    turn: seventeen turns bring it to 0. *)
Definition sqrt_fuel : nat := 18.

Definition SquareRootRounded (a_nInput : Z) : option Z :=
  let op := a_nInput in
  let res := 0 in
  let one := w32 (Z.shiftl 1 30) in
  one <- sqrt_find_one sqrt_fuel op one ;;
  r <- sqrt_loop sqrt_fuel op res one ;;
  let '(op, res) := r in
  Some (if op >? res then w32 (res + 1) else res).

(** ** Unit conversion (virtcap.c, lines 190-200) *)

Definition SHIFT_VOLT : Z := 13.

(** [return voltage * 32 << SHIFT_VOLT;] *)
Definition voltage_mv_to_logic (voltage : Z) : Z :=
  value (cshl (cmul (u32 voltage) (i32 32)) SHIFT_VOLT).

(** [return current * 3216 / 1000;] *)
Definition current_ua_to_logic (current : Z) : option Z :=
  q <- cdiv (cmul (u32 current) (i32 3216)) (i32 1000) ;;
  Some (value q).

(** ** The state of the module (virtcap.c, lines 9-22) *)

Section Virtcap.

(** The C type of the fields of [VirtCapNoFpSettings], [uint32_t] or
    [int32_t]: [virtcap.h], which declares them, is absent.  The type decides
    whether the divisions of lines 92 and 128 are signed. *)
Variable field_type : ctype.

(** The values a [virtcap_nofp_callback_func_t] can take. *)
Variable fn : Type.

(** Modelled from the spec: the declaration of [VirtCapNoFpSettings] in
    [virtcap.h] is absent.  The fields are the ones the specification lists
    (section 3) and [virtcap.c] reads, each a 32-bit integer holding a value
    of type [field_type]. *)
Record VirtCapNoFpSettings : Type := {
  upper_threshold_voltage : Z;
  lower_threshold_voltage : Z;
  sample_period_us : Z;
  capacitance_uF : Z;
  kMaxCapVoltage : Z;
  kMinCapVoltage : Z;
  kInitCapVoltage : Z;
  kDcoutputVoltage : Z;
  kLeakageCurrent : Z;
  kOnTimeLeakageCurrent : Z;
  kDiscretize : Z;
  kOutputCap_uF : Z;
  kConverterEfficiency : Z
}.

(** The global variables.  [harvest_multiplier] is declared in the file and
    neither read nor written by any of its functions; it is left out.
    [is_outputting] and [is_enabled] only ever hold [TRUE] or [FALSE] of the
    absent header, here [true] and [false]. *)
Record State : Type := {
  kScaleInput : Z;
  outputcap_scale_factor : Z;
  cap_voltage : Z;
  is_outputting : bool;
  is_enabled : bool;
  discretize_cntr : Z;
  settings : VirtCapNoFpSettings;
  callback : fn
}.

(** A call through the stored function pointer. *)
Inductive event : Type := Call (f : fn) (arg : bool).

(** Reading a field of [settings], and the value stored by an assignment to
    one. *)
Definition fld (x : Z) : cint := CInt field_type (norm field_type x).
Definition to_field (c : cint) : Z := value (conv field_type c).

(** [settings.f = voltage_mv_to_logic(settings.f)] *)
Definition convert_voltage (x : Z) : Z :=
  to_field (u32 (voltage_mv_to_logic (value (conv U32 (fld x))))).

(** [settings.f = current_ua_to_logic(settings.f)] *)
Definition convert_current (x : Z) : option Z :=
  l <- current_ua_to_logic (value (conv U32 (fld x))) ;;
  Some (to_field (u32 l)).

(** ** virtcap_init (virtcap.c, lines 75-108) *)

Definition virtcap_init (settings_arg : VirtCapNoFpSettings) (callback_arg : fn)
  : option State :=
  let s := settings_arg in
  leak <- convert_current (kLeakageCurrent s) ;;
  on_leak <- convert_current (kOnTimeLeakageCurrent s) ;;
  let s :=
    {| upper_threshold_voltage := convert_voltage (upper_threshold_voltage s);
       lower_threshold_voltage := convert_voltage (lower_threshold_voltage s);
       sample_period_us := to_field (fld (sample_period_us s));
       capacitance_uF := to_field (fld (capacitance_uF s));
       kMaxCapVoltage := convert_voltage (kMaxCapVoltage s);
       kMinCapVoltage := convert_voltage (kMinCapVoltage s);
       kInitCapVoltage := convert_voltage (kInitCapVoltage s);
       kDcoutputVoltage := convert_voltage (kDcoutputVoltage s);
       kLeakageCurrent := leak;
       kOnTimeLeakageCurrent := on_leak;
       kDiscretize := to_field (fld (kDiscretize s));
       kOutputCap_uF := to_field (fld (kOutputCap_uF s));
       kConverterEfficiency := to_field (fld (kConverterEfficiency s)) |} in
  q <- cdiv (cmul (cmul (csub (fld (capacitance_uF s)) (fld (kOutputCap_uF s)))
                        (i32 1024)) (i32 1024))
            (fld (capacitance_uF s)) ;;
  let outputcap_scale_factor_pre_sqrt := value (conv U32 q) in
  root <- SquareRootRounded outputcap_scale_factor_pre_sqrt ;;
  Some {| kScaleInput := 102911;
          outputcap_scale_factor := root;
          cap_voltage := value (conv U32 (fld (kInitCapVoltage s)));
          is_outputting := false;
          is_enabled := false;
          discretize_cntr := 0;
          settings := s;
          callback := callback_arg |}.

(** ** virtcap_update (virtcap.c, lines 112-188) *)

(** [cap_voltage >> SHIFT_VOLT], the divisor of lines 116 and 126. *)
Definition volt_divisor (st : State) : cint :=
  cshr (u32 (cap_voltage st)) SHIFT_VOLT.

(** Lines 116-118: harvested current, less the leakage. *)
Definition input_current (st : State) (input_power efficiency : Z)
  : option cint :=
  q <- cdiv (cmul (conv I32 (u32 input_power)) (u32 (kScaleInput st)))
            (volt_divisor st) ;;
  let input_current := conv I32 (cshr (cmul q (u32 efficiency)) SHIFT_VOLT) in
  Some (conv I32 (csub input_current (fld (kLeakageCurrent (settings st))))).

(** Lines 121-126: load current, read as zero while not outputting. *)
Definition output_current (st : State) (current_measured voltage_measured : Z)
  : option cint :=
  let current_measured :=
    if negb (is_outputting st) then i32 0 else i32 current_measured in
  q <- cdiv (cmul (u32 voltage_measured) current_measured) (volt_divisor st) ;;
  Some (conv I32 (cshr (cmul q (fld (kConverterEfficiency (settings st))))
                       SHIFT_VOLT)).

(** Line 128: the voltage before the clamp. *)
Definition new_cap_voltage (st : State) (input_current output_current : cint)
  : option cint :=
  q <- cdiv (cmul (cshl (csub input_current output_current) SHIFT_VOLT)
                  (fld (sample_period_us (settings st))))
            (cmul (i32 100) (fld (capacitance_uF (settings st)))) ;;
  Some (conv U32 (cadd (u32 (cap_voltage st)) q)).

(** Lines 156-163. *)
Definition clamp (s : VirtCapNoFpSettings) (new_cap_voltage : cint) : cint :=
  if cge new_cap_voltage (fld (kMaxCapVoltage s))
  then conv U32 (fld (kMaxCapVoltage s))
  else if clt new_cap_voltage (fld (kMinCapVoltage s))
  then conv U32 (fld (kMinCapVoltage s))
  else new_cap_voltage.

Definition commit (st : State) (cntr : Z) (outputting : bool) (v : cint)
  : State :=
  {| kScaleInput := kScaleInput st;
     outputcap_scale_factor := outputcap_scale_factor st;
     cap_voltage := value (conv U32 v);
     is_outputting := outputting;
     is_enabled := is_enabled st;
     discretize_cntr := cntr;
     settings := settings st;
     callback := callback st |}.

(** Lines 166-186: the debounced hysteresis and the commit of the voltage. *)
Definition hysteresis (st : State) (new_cap_voltage : cint)
  : State * list event :=
  let s := settings st in
  let cntr := cadd (u32 (discretize_cntr st)) (i32 1) in
  if cge cntr (fld (kDiscretize s)) then
    if is_outputting st
       && clt new_cap_voltage (fld (lower_threshold_voltage s))
    then (commit st 0 false new_cap_voltage, [Call (callback st) false])
    else if negb (is_outputting st)
            && cgt new_cap_voltage (fld (upper_threshold_voltage s))
    then (commit st 0 true
            (cmul (cshr new_cap_voltage 10) (u32 (outputcap_scale_factor st))),
          [Call (callback st) true])
    else (commit st 0 (is_outputting st) new_cap_voltage, [])
  else (commit st (value cntr) (is_outputting st) new_cap_voltage, []).

Definition virtcap_update (st : State)
  (current_measured voltage_measured input_power efficiency : Z)
  : option (State * list event) :=
  ic <- input_current st input_power efficiency ;;
  oc <- output_current st current_measured voltage_measured ;;
  v <- new_cap_voltage st ic oc ;;
  Some (hysteresis st (clamp (settings st) v)).

(** One sample handed to [virtcap_update] by the sampling loop. *)
Record sample : Type := {
  current_measured : Z;
  voltage_measured : Z;
  input_power : Z;
  efficiency : Z
}.

Definition update (st : State) (x : sample) : option (State * list event) :=
  virtcap_update st (current_measured x) (voltage_measured x)
                 (input_power x) (efficiency x).

(** A sequence of calls, with the calls of the callback in order. *)
Fixpoint run (st : State) (xs : list sample) : option (State * list event) :=
  match xs with
  | [] => Some (st, [])
  | x :: xs' =>
      r <- update st x ;;
      let '(st1, tr1) := r in
      r' <- run st1 xs' ;;
      let '(st2, tr2) := r' in
      Some (st2, tr1 ++ tr2)
  end.

End Virtcap.

Arguments Call {fn} f arg.
Arguments callback {fn} _.
Arguments settings {fn} _.
Arguments kScaleInput {fn} _.
Arguments outputcap_scale_factor {fn} _.
Arguments cap_voltage {fn} _.
Arguments is_outputting {fn} _.
Arguments is_enabled {fn} _.
Arguments discretize_cntr {fn} _.
Arguments virtcap_init _ {fn} _ _.
Arguments virtcap_update _ {fn} _ _ _ _ _.
Arguments update _ {fn} _ _.
Arguments run _ {fn} _ _.
Arguments hysteresis _ {fn} _ _.
Arguments commit {fn} _ _ _ _.
Arguments input_current _ {fn} _ _ _.
Arguments output_current _ {fn} _ _ _.
Arguments new_cap_voltage _ {fn} _ _ _.
Arguments volt_divisor {fn} _.

(** ** The integration law as the specification writes it

    Section 4.3, step 5:
    [new_cap_voltage = cap_voltage + (((input_current - output_current) << 13)
    * sample_period_us) / (100 * capacitance_uF)], every operation in this
    order on 32 bits, the division truncating.  The operands are residues
    mod 2^32; the division reads them as signed when the fields of the
    settings are, as unsigned otherwise. *)

Definition signed32 (x : Z) : Z :=
  if w32 x <? 2^31 then w32 x else w32 x - 2^32.

Definition spec_new_cap_voltage (signed_fields : bool)
  (cap_voltage input_current output_current sample_period_us capacitance_uF : Z)
  : option Z :=
  let difference := w32 (input_current - output_current) in
  let shifted := w32 (Z.shiftl difference 13) in
  let numerator := w32 (shifted * sample_period_us) in
  let denominator := w32 (100 * capacitance_uF) in
  if denominator =? 0 then None
  else
    let quotient :=
      if signed_fields
      then Z.quot (signed32 numerator) (signed32 denominator)
      else numerator / denominator in
    Some (w32 (cap_voltage + quotient)).

(** ** A configuration and samples to run the code on *)

(** Settings in physical units (mV, uA, uF, us), with [kDiscretize = k]. *)
Definition demo_settings (k : Z) : VirtCapNoFpSettings :=
  {| upper_threshold_voltage := 3000;
     lower_threshold_voltage := 2500;
     sample_period_us := 10;
     capacitance_uF := 1000;
     kMaxCapVoltage := 3300;
     kMinCapVoltage := 2400;
     kInitCapVoltage := 3000;
     kDcoutputVoltage := 2000;
     kLeakageCurrent := 0;
     kOnTimeLeakageCurrent := 0;
     kDiscretize := k;
     kOutputCap_uF := 500;
     kConverterEfficiency := 8192 |}.

(** The state [virtcap_init] builds from them. *)
Definition demo_state (k : Z) : State unit :=
  {| kScaleInput := 102911;
     outputcap_scale_factor := 724;
     cap_voltage := 786432000;
     is_outputting := false;
     is_enabled := false;
     discretize_cntr := 0;
     settings :=
       {| upper_threshold_voltage := 786432000;
          lower_threshold_voltage := 655360000;
          sample_period_us := 10;
          capacitance_uF := 1000;
          kMaxCapVoltage := 865075200;
          kMinCapVoltage := 629145600;
          kInitCapVoltage := 786432000;
          kDcoutputVoltage := 524288000;
          kLeakageCurrent := 0;
          kOnTimeLeakageCurrent := 0;
          kDiscretize := k;
          kOutputCap_uF := 500;
          kConverterEfficiency := 8192 |};
     callback := tt |}.

(** A sample that charges the capacitor, and one with nothing coming in. *)
Definition charging : sample :=
  {| current_measured := 0; voltage_measured := 0;
     input_power := 1000; efficiency := 8192 |}.

Definition idle : sample :=
  {| current_measured := 0; voltage_measured := 0;
     input_power := 0; efficiency := 0 |}.

(** ** The calls of the callback over a sequence of updates *)

(** [alternating f b tr]: every call of [tr] goes through [f], the first one
    with the negation of [b], each next one with the negation of the one
    before. *)
Fixpoint alternating {fn : Type} (f : fn) (b : bool) (tr : list (event fn))
  : Prop :=
  match tr with
  | [] => True
  | Call g a :: tr' => g = f /\ a = negb b /\ alternating f a tr'
  end.

(** The argument of the last call of [tr], or [b] when there is none. *)
Fixpoint last_arg {fn : Type} (b : bool) (tr : list (event fn)) : bool :=
  match tr with
  | [] => b
  | Call _ a :: tr' => last_arg a tr'
  end.

(** * Properties *)

(** ** Arithmetic of the reductions *)

(** Turns a boolean comparison on [Z] in a hypothesis into its proposition. *)
Ltac zbool H :=
  rewrite ?Z.geb_leb, ?Z.gtb_ltb in H;
  first [ apply Z.leb_le in H | apply Z.leb_gt in H
        | apply Z.ltb_lt in H | apply Z.ltb_ge in H
        | apply Z.eqb_eq in H | apply Z.eqb_neq in H ].

Lemma w32_small (x : Z) : 0 <= x < 2^32 -> w32 x = x.
Proof. intros H. unfold w32. now apply Z.mod_small. Qed.

Lemma norm_u32_small (x : Z) : 0 <= x < 2^32 -> norm U32 x = x.
Proof. intros H. simpl. now apply Z.mod_small. Qed.

Lemma norm_i32_small (x : Z) : - 2^31 <= x < 2^31 -> norm I32 x = x.
Proof. intros H. simpl. rewrite Z.mod_small; lia. Qed.

Lemma norm_in_range (t : ctype) (x : Z) : in_range t (norm t x).
Proof.
  destruct t; simpl; pose proof (Z.mod_pos_bound x (2^32));
    pose proof (Z.mod_pos_bound (x + 2^31) (2^32)); lia.
Qed.

Lemma norm_idem (t : ctype) (x : Z) : norm t (norm t x) = norm t x.
Proof.
  pose proof (norm_in_range t x) as H.
  destruct t; [apply norm_u32_small | apply norm_i32_small]; exact H.
Qed.

Lemma pow4_succ (k : nat) : 4 ^ Z.of_nat (S k) = 4 * 4 ^ Z.of_nat k.
Proof. rewrite Nat2Z.inj_succ. apply Z.pow_succ_r. lia. Qed.

Lemma pow2_succ (k : nat) : 2 ^ Z.of_nat (S k) = 2 * 2 ^ Z.of_nat k.
Proof. rewrite Nat2Z.inj_succ. apply Z.pow_succ_r. lia. Qed.

Lemma pow4_sq (k : nat) : 4 ^ Z.of_nat k = 2 ^ Z.of_nat k * 2 ^ Z.of_nat k.
Proof.
  induction k as [|k IH]; [reflexivity|].
  rewrite pow4_succ, pow2_succ, IH. ring.
Qed.

Lemma pow2_pos (k : nat) : 1 <= 2 ^ Z.of_nat k.
Proof.
  induction k as [|k IH]; [simpl; lia|]. rewrite pow2_succ. lia.
Qed.

Lemma shiftr2_times4 (x : Z) : Z.shiftr (4 * x) 2 = x.
Proof.
  rewrite Z.shiftr_div_pow2 by lia. change (2 ^ 2) with 4.
  rewrite Z.mul_comm. apply Z.div_mul. lia.
Qed.

Lemma shiftr1_times2 (x : Z) : Z.shiftr (2 * x) 1 = x.
Proof.
  rewrite Z.shiftr_div_pow2 by lia. change (2 ^ 1) with 2.
  rewrite Z.mul_comm. apply Z.div_mul. lia.
Qed.

(** ** SquareRootRounded *)

(** The first loop stops at the highest power of four below the argument, or
    at 0 when the argument is 0. *)
Lemma sqrt_find_one_spec (k : nat) :
  forall (fuel : nat) (n : Z),
    (k + 2 <= fuel)%nat ->
    0 <= n < 4 * 4 ^ Z.of_nat k ->
    exists one : Z,
      sqrt_find_one fuel n (4 ^ Z.of_nat k) = Some one /\
      ((n = 0 /\ one = 0) \/
       (exists j : nat, (j <= k)%nat /\ one = 4 ^ Z.of_nat j /\
                        4 ^ Z.of_nat j <= n < 4 * 4 ^ Z.of_nat j)).
Proof.
  induction k as [|k IH]; intros fuel n Hfuel Hn.
  - destruct fuel as [|[|fuel]]; try lia.
    change (4 ^ Z.of_nat 0) with 1 in *. cbn [sqrt_find_one].
    destruct (1 >? n) eqn:E; zbool E.
    + assert (n = 0) by lia. subst n. exists 0. split; [reflexivity|].
      left. split; reflexivity.
    + exists 1. split; [reflexivity|]. right. exists 0%nat.
      change (4 ^ Z.of_nat 0) with 1. repeat split; lia.
  - destruct fuel as [|fuel]; try lia. cbn [sqrt_find_one].
    destruct (4 ^ Z.of_nat (S k) >? n) eqn:E.
    + zbool E. rewrite pow4_succ, shiftr2_times4.
      rewrite pow4_succ in E.
      destruct (IH fuel n) as [one [Hone Hcase]]; [lia | lia |].
      exists one. split; [exact Hone|].
      destruct Hcase as [H0 | [j [Hj Hrest]]]; [left; exact H0|].
      right. exists j. split; [lia | exact Hrest].
    + exists (4 ^ Z.of_nat (S k)). split; [reflexivity|]. right.
      exists (S k). zbool E. repeat split; lia.
Qed.

(** One turn of the second loop, on the invariant of the digit-by-digit
    method: [a] is the part of the root found so far, [s] the weight of the
    binary digit under test, [res = 2 * a * s], [op = n - a * a] and
    [one = s * s]. *)
Lemma sqrt_step_bounds (n a s : Z) :
  0 <= a -> 1 <= s -> a + 2 * s <= 65536 ->
  a * a <= n ->
  n < (a + 2 * s) * (a + 2 * s) ->
  n < 2^32 /\
  0 <= 2 * a * s + s * s < 2^32 /\
  0 <= 2 * (s * s) < 2^32 /\
  0 <= 2 * a * s + 2 * (s * s) < 2^32.
Proof.
  intros Ha Hs Hsum Hsq Hhi.
  assert ((a + 2 * s) * (a + 2 * s) <= 65536 * 65536) by nia.
  assert (a + s <= 65535) by lia.
  assert (s <= 32768) by lia.
  assert ((a + s) * (a + s) <= 65535 * 65535) by nia.
  assert (s * s <= 32768 * 32768) by nia.
  assert (s * (a + s) <= 32768 * 65535) by nia.
  change (2^32) with 4294967296.
  repeat split; nia.
Qed.

Lemma sqrt_loop_spec (k : nat) :
  forall (fuel : nat) (n a : Z),
    (k + 2 <= fuel)%nat ->
    0 <= a -> a + 2 * 2 ^ Z.of_nat k <= 65536 ->
    a * a <= n ->
    n < (a + 2 * 2 ^ Z.of_nat k) * (a + 2 * 2 ^ Z.of_nat k) ->
    exists r : Z,
      sqrt_loop fuel (n - a * a) (2 * a * 2 ^ Z.of_nat k) (4 ^ Z.of_nat k)
      = Some (n - r * r, r) /\
      0 <= r <= 65535 /\ r * r <= n < (r + 1) * (r + 1).
Proof.
  induction k as [|k IH]; intros fuel n a Hfuel Ha Hsum Hlo Hhi.
  - destruct fuel as [|[|fuel]]; try lia.
    change (2 ^ Z.of_nat 0) with 1 in *. change (4 ^ Z.of_nat 0) with 1.
    destruct (sqrt_step_bounds n a 1 Ha ltac:(lia) Hsum Hlo Hhi)
      as [B0 [B1 [B2 B3]]].
    cbn [sqrt_loop]. change (negb (1 =? 0)) with true. cbv iota.
    change (Z.shiftr 1 2) with 0. change (negb (0 =? 0)) with false.
    rewrite (w32_small (2 * a * 1 + 1)) by lia.
    destruct (n - a * a >=? 2 * a * 1 + 1) eqn:E; zbool E.
    + rewrite (w32_small (2 * 1)) by lia.
      rewrite (w32_small (2 * a * 1 + 2 * 1)) by lia.
      rewrite (w32_small (n - a * a - (2 * a * 1 + 1))) by lia.
      replace (2 * a * 1 + 2 * 1) with (2 * (a + 1)) by ring.
      rewrite shiftr1_times2. exists (a + 1). split; [f_equal; f_equal; ring|].
      split; [lia|]. split; [lia|]. lia.
    + replace (2 * a * 1) with (2 * a) by ring.
      rewrite shiftr1_times2. exists a. split; [reflexivity|].
      split; [lia|]. split; [lia|]. lia.
  - destruct fuel as [|fuel]; try lia.
    set (s := 2 ^ Z.of_nat k) in *.
    assert (Hs : 1 <= s) by apply pow2_pos.
    rewrite pow2_succ in *. fold s in Hsum, Hhi |- *.
    rewrite pow4_succ, pow4_sq. fold s.
    destruct (sqrt_step_bounds n a (2 * s) Ha ltac:(lia) Hsum Hlo Hhi)
      as [B0 [B1 [B2 B3]]].
    cbn [sqrt_loop].
    assert (Hne : negb (4 * (s * s) =? 0) = true).
    { apply negb_true_iff, Z.eqb_neq. nia. }
    rewrite Hne, shiftr2_times4.
    replace (4 * (s * s)) with (2 * s * (2 * s)) by ring.
    rewrite (w32_small (2 * a * (2 * s) + 2 * s * (2 * s))) by lia.
    destruct (n - a * a >=? 2 * a * (2 * s) + 2 * s * (2 * s)) eqn:E; zbool E.
    + rewrite (w32_small (2 * (2 * s * (2 * s)))) by lia.
      rewrite (w32_small (2 * a * (2 * s) + 2 * (2 * s * (2 * s)))) by lia.
      rewrite (w32_small (n - a * a - (2 * a * (2 * s) + 2 * s * (2 * s))))
        by lia.
      replace (2 * a * (2 * s) + 2 * (2 * s * (2 * s)))
        with (2 * (2 * (a + 2 * s) * s)) by ring.
      rewrite shiftr1_times2.
      replace (n - a * a - (2 * a * (2 * s) + 2 * s * (2 * s)))
        with (n - (a + 2 * s) * (a + 2 * s)) by ring.
      replace (s * s) with (4 ^ Z.of_nat k) by (unfold s; apply pow4_sq).
      apply IH; fold s; lia.
    + replace (2 * a * (2 * s)) with (2 * (2 * a * s)) by ring.
      rewrite shiftr1_times2.
      replace (s * s) with (4 ^ Z.of_nat k) by (unfold s; apply pow4_sq).
      apply IH; fold s; lia.
Qed.

(** The function returns on every 32-bit argument: the floor [r] of the
    square root, plus one when the remainder [n - r * r] exceeds [r]. *)
Lemma SquareRootRounded_floor (n : Z) :
  0 <= n < 2^32 ->
  exists r : Z,
    0 <= r <= 65535 /\ r * r <= n < (r + 1) * (r + 1) /\
    SquareRootRounded n = Some (if n - r * r >? r then r + 1 else r).
Proof.
  intros Hn. unfold SquareRootRounded, sqrt_fuel.
  change (w32 (Z.shiftl 1 30)) with (4 ^ Z.of_nat 15).
  destruct (sqrt_find_one_spec 15 18 n) as [one [Hone Hcase]];
    [lia | change (4 * 4 ^ Z.of_nat 15) with (2^32); lia |].
  rewrite Hone. cbn [bind].
  destruct Hcase as [[Hz Ho] | [j [Hj [Ho Hb]]]]; subst one.
  - subst n. exists 0. repeat split; try lia.
  - assert (Hp : 2 ^ Z.of_nat j <= 2 ^ 15).
    { apply Z.pow_le_mono_r; lia. }
    pose proof (pow2_pos j) as Hpos.
    rewrite pow4_sq in Hb.
    destruct (sqrt_loop_spec j 18 n 0) as [r [Hloop [Hr Hsq]]];
      try lia.
    replace (n - 0 * 0) with n in Hloop by ring.
    replace (2 * 0 * 2 ^ Z.of_nat j) with 0 in Hloop by ring.
    rewrite Hloop. cbn [bind]. exists r.
    split; [exact Hr|]. split; [exact Hsq|].
    destruct (n - r * r >? r); [|reflexivity].
    rewrite w32_small by lia. reflexivity.
Qed.

(** The result is the integer nearest to the square root: [r - 1/2 < sqrt n
    < r + 1/2], written on integers. *)
Lemma SquareRootRounded_nearest (n : Z) :
  0 <= n < 2^32 ->
  exists r : Z,
    SquareRootRounded n = Some r /\ 0 <= r <= 65536 /\
    r * r - r <= n <= r * r + r /\ (1 <= n -> r * r - r < n).
Proof.
  intros Hn.
  destruct (SquareRootRounded_floor n Hn) as [r [Hr [Hsq Heq]]].
  rewrite Heq. destruct (n - r * r >? r) eqn:E; zbool E.
  - exists (r + 1). split; [reflexivity|]. split; [lia|]. split; lia.
  - exists r. split; [reflexivity|]. split; [lia|]. split; nia.
Qed.

(** C2, as amended: on every 32-bit argument from 1 on, the function returns
    an [r] with [r * r <= n + r] and [(r - 1) * (r - 1) < n]; on 0 it returns
    0; and it maps 2, 3, 4, 6, 7, 8, 9 to 1, 2, 2, 2, 3, 3, 3. *)
Theorem SquareRootRounded_rounded :
  (forall n : Z, 1 <= n < 2^32 ->
     exists r : Z, SquareRootRounded n = Some r /\
                   r * r <= n + r /\ (r - 1) * (r - 1) < n) /\
  SquareRootRounded 0 = Some 0 /\
  map SquareRootRounded [2; 3; 4; 6; 7; 8; 9]
  = [Some 1; Some 2; Some 2; Some 2; Some 3; Some 3; Some 3].
Proof.
  split; [|split; reflexivity].
  intros n Hn.
  destruct (SquareRootRounded_nearest n) as [r [Hr [Hb [Hnear Hstrict]]]];
    [lia|].
  exists r. split; [exact Hr|]. split; [lia|].
  specialize (Hstrict ltac:(lia)). nia.
Qed.

Lemma SquareRootRounded_rounded_witness :
  exists r : Z, SquareRootRounded 7 = Some r /\
                r * r <= 7 + r /\ (r - 1) * (r - 1) < 7.
Proof.
  apply (proj1 SquareRootRounded_rounded 7). lia.
Defined.

(** C2, as stated, fails at 0: the function returns 0, and
    [(0 - 1) * (0 - 1) = 1] is not below 0. *)
Lemma SquareRootRounded_zero :
  0 <= 0 < 2^32 /\ SquareRootRounded 0 = Some 0 /\
  ~ ((0 - 1) * (0 - 1) < 0).
Proof.
  split; [lia|]. split; [reflexivity|]. lia.
Qed.

(** ** Unit conversion *)

Lemma norm_u32_norm (t : ctype) (x : Z) : norm U32 (norm t x) = x mod 2^32.
Proof.
  destruct t; simpl.
  - apply Z.mod_mod. lia.
  - rewrite Zminus_mod_idemp_l. f_equal. ring.
Qed.

Lemma voltage_mv_to_logic_eq (v : Z) :
  voltage_mv_to_logic v = (v * 262144) mod 2^32.
Proof.
  unfold voltage_mv_to_logic, cshl, cmul, arith, conv, u32, i32, SHIFT_VOLT.
  cbn [ctype_of value join].
  rewrite !norm_idem, norm_u32_norm.
  cbn [norm]. rewrite Z.shiftl_mul_pow2 by lia.
  rewrite (Z.mod_small 32) by lia.
  rewrite Z.mul_mod_idemp_l by lia. rewrite <- Z.mul_assoc.
  rewrite Z.mul_mod_idemp_l by lia.
  f_equal.
Qed.

Lemma current_ua_to_logic_eq (c : Z) :
  current_ua_to_logic c = Some (((c * 3216) mod 2^32) / 1000).
Proof.
  unfold current_ua_to_logic, cdiv, cmul, arith, conv, u32, i32.
  cbn [ctype_of value join ctype_eqb andb].
  rewrite !norm_idem, !norm_u32_norm.
  cbn [norm]. rewrite (Z.mod_small 3216), (Z.mod_small 1000) by lia.
  change (1000 =? 0) with false. cbv iota. cbn [bind value].
  rewrite Z.mul_mod_idemp_l by lia.
  rewrite Z.quot_div_nonneg; [reflexivity | | lia].
  apply Z.mod_pos_bound. lia.
Qed.

(** C7: on the inputs whose product does not leave 32 bits (below 16384 mV,
    and up to 1335499 uA), both conversions are the formulas of the
    specification and are strictly increasing. *)
Theorem unit_conversion_strictly_monotonic (x y : Z) :
  0 <= x < y ->
  (y < 16384 ->
     voltage_mv_to_logic y = Z.shiftl (y * 32) 13 /\
     voltage_mv_to_logic x < voltage_mv_to_logic y) /\
  (y * 3216 < 2^32 ->
     exists lx ly : Z,
       current_ua_to_logic x = Some lx /\
       current_ua_to_logic y = Some ly /\
       ly = y * 3216 / 1000 /\ lx < ly).
Proof.
  intros Hxy. split.
  - intros Hy. rewrite !voltage_mv_to_logic_eq.
    rewrite Z.shiftl_mul_pow2 by lia. change (2 ^ 13) with 8192.
    rewrite !Z.mod_small by lia. lia.
  - intros Hy. rewrite !current_ua_to_logic_eq.
    rewrite !Z.mod_small by lia.
    exists (x * 3216 / 1000), (y * 3216 / 1000).
    repeat split; try reflexivity.
    apply Z.lt_le_trans with ((x * 3216 + 1000) / 1000).
    + replace (x * 3216 + 1000) with (x * 3216 + 1 * 1000) by ring.
      rewrite Z.div_add by lia. lia.
    + apply Z.div_le_mono; lia.
Qed.

Lemma unit_conversion_strictly_monotonic_witness :
  (voltage_mv_to_logic 3300 = Z.shiftl (3300 * 32) 13 /\
   voltage_mv_to_logic 3299 < voltage_mv_to_logic 3300) /\
  (exists lx ly : Z,
     current_ua_to_logic 3299 = Some lx /\
     current_ua_to_logic 3300 = Some ly /\
     ly = 3300 * 3216 / 1000 /\ lx < ly).
Proof.
  destruct (unit_conversion_strictly_monotonic 3299 3300 ltac:(lia))
    as [Hv Hc].
  split; [apply Hv; lia | apply Hc; lia].
Defined.

(** Outside that domain the product wraps and the order is lost. *)
Lemma unit_conversion_wraps :
  voltage_mv_to_logic 16384 = 0 /\ voltage_mv_to_logic 16383 = 4294705152 /\
  current_ua_to_logic 1335500 = Some 0 /\
  current_ua_to_logic 1335499 = Some 4294964.
Proof. repeat split; reflexivity. Qed.

(** ** The counter and the hysteresis *)

Section Update.

Variable field_type : ctype.
Variable fn : Type.
Implicit Types (st : State fn) (v : cint) (x : sample).

(** Every completed call ends in [hysteresis]. *)
Lemma virtcap_update_hysteresis st (cm vm ip eff : Z) (r : State fn * list (event fn)) :
  virtcap_update field_type st cm vm ip eff = Some r ->
  exists v, r = hysteresis field_type st v.
Proof.
  unfold virtcap_update.
  destruct (input_current field_type st ip eff) as [ic|];
    cbn [bind]; [|discriminate].
  destruct (output_current field_type st cm vm) as [oc|];
    cbn [bind]; [|discriminate].
  destruct (new_cap_voltage field_type st ic oc) as [w|];
    cbn [bind]; [|discriminate].
  intros H. injection H as <-. eexists. reflexivity.
Qed.

(** [discretize_cntr++] and the comparison of line 167, on integers. *)
Lemma counter_incr (c : Z) : value (cadd (u32 c) (i32 1)) = w32 (c + 1).
Proof.
  unfold cadd, arith, conv, u32, i32. cbn [ctype_of value join].
  rewrite !norm_idem, norm_u32_norm. cbn [norm].
  rewrite (Z.mod_small 1) by lia.
  rewrite Zplus_mod_idemp_l. reflexivity.
Qed.

Lemma counter_wraps (c k : Z) :
  cge (cadd (u32 c) (i32 1)) (fld field_type k) = (w32 (c + 1) >=? w32 k).
Proof.
  unfold cge, cmp, fld.
  assert (Hj : join (ctype_of (cadd (u32 c) (i32 1)))
                    (ctype_of (CInt field_type (norm field_type k))) = U32)
    by reflexivity.
  rewrite Hj. unfold conv. cbn [value].
  rewrite counter_incr, norm_u32_norm. unfold w32. cbn [norm].
  rewrite Z.mod_mod by lia. reflexivity.
Qed.

(** What [hysteresis] leaves alone, and how the calls of the callback follow
    [is_outputting]. *)
Lemma hysteresis_frame st v :
  let st' := fst (hysteresis field_type st v) in
  settings st' = settings st /\
  kScaleInput st' = kScaleInput st /\
  outputcap_scale_factor st' = outputcap_scale_factor st /\
  callback st' = callback st /\
  is_enabled st' = is_enabled st.
Proof.
  unfold hysteresis.
  repeat match goal with
         | |- context [if ?b then _ else _] => destruct b
         end; cbn; repeat split; reflexivity.
Qed.

Lemma hysteresis_callback st v :
  let '(st', tr) := hysteresis field_type st v in
  (is_outputting st' = is_outputting st /\ tr = []) \/
  (is_outputting st' = negb (is_outputting st) /\
   tr = [Call (callback st) (is_outputting st')]).
Proof.
  unfold hysteresis.
  destruct (cge _ (fld field_type (kDiscretize (settings st))));
    [|left; split; reflexivity].
  destruct (is_outputting st) eqn:Eo; cbn [andb negb].
  - destruct (clt v _); [right | left]; split; reflexivity.
  - destruct (cgt v _); [right | left]; split; reflexivity.
Qed.

(** A call in which the counter does not reach [kDiscretize] only counts. *)
Lemma hysteresis_quiet st v :
  w32 (discretize_cntr st + 1) < w32 (kDiscretize (settings st)) ->
  hysteresis field_type st v
  = (commit st (w32 (discretize_cntr st + 1)) (is_outputting st) v, []).
Proof.
  intros H. unfold hysteresis. rewrite counter_wraps, counter_incr.
  destruct (w32 (discretize_cntr st + 1) >=? w32 (kDiscretize (settings st)))
    eqn:E; [zbool E; lia | reflexivity].
Qed.

Lemma hysteresis_counter st v :
  discretize_cntr (fst (hysteresis field_type st v))
  = if w32 (discretize_cntr st + 1) >=? w32 (kDiscretize (settings st))
    then 0 else w32 (discretize_cntr st + 1).
Proof.
  unfold hysteresis. rewrite counter_wraps, counter_incr.
  destruct (w32 (discretize_cntr st + 1) >=? w32 (kDiscretize (settings st)));
    [|reflexivity].
  repeat match goal with
         | |- context [if ?b then _ else _] => destruct b
         end; reflexivity.
Qed.

Lemma hysteresis_change_resets st v :
  is_outputting (fst (hysteresis field_type st v)) <> is_outputting st ->
  discretize_cntr (fst (hysteresis field_type st v)) = 0.
Proof.
  unfold hysteresis.
  repeat match goal with
         | |- context [if ?b then _ else _] => destruct b
         end; cbn; congruence.
Qed.

Lemma w32_range (x : Z) : 0 <= w32 x < 2^32.
Proof. apply Z.mod_pos_bound. lia. Qed.

Lemma update_counter st x st' tr :
  update field_type st x = Some (st', tr) ->
  settings st' = settings st /\
  discretize_cntr st'
  = if w32 (discretize_cntr st + 1) >=? w32 (kDiscretize (settings st))
    then 0 else w32 (discretize_cntr st + 1).
Proof.
  intros H. apply virtcap_update_hysteresis in H. destruct H as [v Hv].
  pose proof (hysteresis_frame st v) as Hf.
  pose proof (hysteresis_counter st v) as Hc.
  rewrite <- Hv in Hf, Hc. cbn [fst] in Hf, Hc. split; [apply Hf | exact Hc].
Qed.

Lemma run_counter (xs : list sample) :
  forall st st' tr,
    0 <= discretize_cntr st < w32 (kDiscretize (settings st)) ->
    run field_type st xs = Some (st', tr) ->
    settings st' = settings st /\
    0 <= discretize_cntr st' < w32 (kDiscretize (settings st')).
Proof.
  induction xs as [|x xs IH]; intros st st' tr Hc Hrun.
  - cbn in Hrun. injection Hrun as <- <-. split; [reflexivity | exact Hc].
  - cbn [run] in Hrun.
    destruct (update field_type st x) as [[st1 tr1]|] eqn:Hu;
      cbn [bind] in Hrun; [|discriminate].
    destruct (run field_type st1 xs) as [[st2 tr2]|] eqn:Hr;
      cbn [bind] in Hrun; [|discriminate].
    injection Hrun as <- <-.
    apply update_counter in Hu. destruct Hu as [Hs Hn].
    pose proof (w32_range (discretize_cntr st + 1)) as Hw.
    apply IH in Hr.
    + rewrite <- Hs. exact Hr.
    + rewrite Hs, Hn.
      destruct (w32 (discretize_cntr st + 1)
                  >=? w32 (kDiscretize (settings st))) eqn:E; zbool E; lia.
Qed.

Lemma virtcap_init_state (s : VirtCapNoFpSettings) (cb : fn) st :
  virtcap_init field_type s cb = Some st ->
  discretize_cntr st = 0 /\ is_outputting st = false /\
  is_enabled st = false /\ kScaleInput st = 102911 /\ callback st = cb /\
  w32 (kDiscretize (settings st)) = w32 (kDiscretize s).
Proof.
  unfold virtcap_init.
  destruct (convert_current field_type (kLeakageCurrent s)) as [leak|];
    cbn [bind]; [|discriminate].
  destruct (convert_current field_type (kOnTimeLeakageCurrent s)) as [onl|];
    cbn [bind]; [|discriminate].
  destruct (cdiv _ _) as [q|]; cbn [bind]; [|discriminate].
  destruct (SquareRootRounded _) as [root|]; cbn [bind]; [|discriminate].
  intros H. injection H as <-. cbn.
  repeat split.
  unfold to_field, fld, conv. cbn [value]. rewrite norm_idem.
  change (w32 (norm field_type (kDiscretize s)))
    with (norm U32 (norm field_type (kDiscretize s))).
  apply norm_u32_norm.
Qed.

End Update.

(** ** The integration law *)

Lemma w32_norm (t : ctype) (x : Z) : w32 (norm t x) = w32 x.
Proof. apply norm_u32_norm. Qed.

Lemma w32_idem (x : Z) : w32 (w32 x) = w32 x.
Proof. unfold w32. apply Z.mod_mod. lia. Qed.

Lemma norm_i32_signed32 (x : Z) : norm I32 x = signed32 x.
Proof.
  unfold signed32, w32. cbn [norm].
  pose proof (Z.mod_pos_bound x (2^32) ltac:(lia)) as Hm.
  rewrite <- Zplus_mod_idemp_l.
  destruct (x mod 2^32 <? 2^31) eqn:E; zbool E.
  - rewrite Z.mod_small by lia. lia.
  - rewrite <- (Z.mod_unique (x mod 2^32 + 2^31) (2^32) 1
                             (x mod 2^32 + 2^31 - 2^32)); lia.
Qed.

Lemma signed32_w32 (x : Z) : signed32 (w32 x) = signed32 x.
Proof. unfold signed32. rewrite w32_idem. reflexivity. Qed.

(** Reductions inside a product, a sum or a difference do not change its
    residue. *)
Lemma w32_mul (a b : Z) : w32 (w32 a * w32 b) = w32 (a * b).
Proof. unfold w32. symmetry. apply Z.mul_mod. lia. Qed.

Lemma w32_add (a b : Z) : w32 (w32 a + w32 b) = w32 (a + b).
Proof. unfold w32. symmetry. apply Z.add_mod. lia. Qed.

Lemma w32_sub (a b : Z) : w32 (w32 a - w32 b) = w32 (a - b).
Proof. unfold w32. symmetry. apply Zminus_mod. Qed.

(** Equality of residues, by congruence. *)
Lemma residue_mul (a b c d : Z) :
  w32 a = w32 c -> w32 b = w32 d -> w32 (a * b) = w32 (c * d).
Proof. intros Ha Hb. rewrite <- w32_mul, Ha, Hb. apply w32_mul. Qed.

Lemma residue_add (a b c d : Z) :
  w32 a = w32 c -> w32 b = w32 d -> w32 (a + b) = w32 (c + d).
Proof. intros Ha Hb. rewrite <- w32_add, Ha, Hb. apply w32_add. Qed.

Lemma residue_sub (a b c d : Z) :
  w32 a = w32 c -> w32 b = w32 d -> w32 (a - b) = w32 (c - d).
Proof. intros Ha Hb. rewrite <- w32_sub, Ha, Hb. apply w32_sub. Qed.

Lemma residue_shl (a c n : Z) :
  0 <= n -> w32 a = w32 c -> w32 (Z.shiftl a n) = w32 (Z.shiftl c n).
Proof.
  intros Hn Ha. rewrite !Z.shiftl_mul_pow2 by exact Hn.
  apply residue_mul; [exact Ha | reflexivity].
Qed.

Ltac residue :=
  repeat first
    [ reflexivity
    | rewrite w32_norm
    | rewrite w32_idem
    | apply residue_sub
    | apply residue_mul
    | apply residue_add
    | apply residue_shl; [lia|] ].

Lemma norm_i32_residue (a b : Z) :
  w32 a = w32 b -> norm I32 a = signed32 (w32 b).
Proof.
  intros H. rewrite norm_i32_signed32, <- signed32_w32, H. reflexivity.
Qed.

Lemma signed32_zero (m : Z) :
  0 <= m < 2^32 -> (signed32 m =? 0) = (m =? 0).
Proof.
  intros Hm. unfold signed32. rewrite w32_small by exact Hm.
  destruct (m <? 2^31) eqn:E; zbool E; [reflexivity|].
  destruct (m =? 0) eqn:E0; zbool E0; [lia|]. apply Z.eqb_neq. lia.
Qed.

(** [100 * capacitance_uF] is even: as a signed divisor it is never -1. *)
Lemma signed32_hundredfold (c : Z) : signed32 (w32 (100 * c)) <> -1.
Proof.
  rewrite signed32_w32. unfold signed32, w32.
  pose proof (Z.div_mod (100 * c) (2^32) ltac:(lia)) as Hd.
  pose proof (Z.mod_pos_bound (100 * c) (2^32) ltac:(lia)) as Hm.
  destruct (_ <? _); lia.
Qed.

Lemma new_cap_voltage_spec (ft : ctype) (fn : Type) (st : State fn)
  (ic oc : cint) :
  ctype_of ic = I32 -> ctype_of oc = I32 ->
  new_cap_voltage ft st ic oc
  = v <- spec_new_cap_voltage (ctype_eqb ft I32) (cap_voltage st)
          (value ic) (value oc) (sample_period_us (settings st))
          (capacitance_uF (settings st)) ;;
    Some (u32 v).
Proof.
  destruct ic as [ti vi], oc as [to vo]. cbn [ctype_of value].
  intros -> ->.
  unfold new_cap_voltage, spec_new_cap_voltage.
  unfold cdiv, cadd, cmul, csub, cshl, arith, conv, fld, u32, i32, SHIFT_VOLT.
  cbn [ctype_of value join].
  set (sp := sample_period_us (settings st)).
  set (cap := capacitance_uF (settings st)).
  set (num := w32 (w32 (Z.shiftl (w32 (vi - vo)) 13) * sp)).
  set (den := w32 (100 * cap)).
  pose proof (w32_range (w32 (Z.shiftl (w32 (vi - vo)) 13) * sp)) as Hnum.
  pose proof (w32_range (100 * cap)) as Hden. fold num in Hnum. fold den in Hden.
  destruct ft; cbn [ctype_of value join ctype_eqb andb]; rewrite !norm_idem.
  - change (norm U32) with w32. rewrite ?w32_idem.
    match goal with
    | |- context [if ?d =? 0 then _ else _] =>
        replace d with den by (unfold den; residue)
    end.
    match goal with
    | |- context [Z.quot ?n den] =>
        replace n with num by (unfold num; residue)
    end.
    destruct (den =? 0) eqn:E; zbool E; [reflexivity|]. cbn [bind value].
    rewrite Z.quot_div_nonneg by lia.
    f_equal. f_equal. residue.
  - replace (norm I32 (norm I32 100 * norm I32 cap)) with (signed32 den)
      by (symmetry; apply norm_i32_residue; residue).
    replace (norm I32 (norm I32 (Z.shiftl
               (norm I32 (norm I32 vi - norm I32 vo)) 13) * norm I32 sp))
      with (signed32 num) by (symmetry; apply norm_i32_residue; residue).
    rewrite signed32_zero by exact Hden.
    destruct (den =? 0) eqn:E; [reflexivity|].
    assert (Hm1 : (signed32 den =? -1) = false).
    { apply Z.eqb_neq. apply signed32_hundredfold. }
    rewrite Hm1, andb_false_r. cbn [bind value].
    change (norm U32) with w32.
    f_equal. f_equal. residue.
Qed.

Section Claims.

Variable field_type : ctype.
Variable fn : Type.
Implicit Types (st : State fn) (x : sample).

Lemma input_current_type st (ip eff : Z) (ic : cint) :
  input_current field_type st ip eff = Some ic -> ctype_of ic = I32.
Proof.
  unfold input_current. destruct (cdiv _ _); cbn [bind]; [|discriminate].
  intros H. injection H as <-. reflexivity.
Qed.

Lemma output_current_type st (cm vm : Z) (oc : cint) :
  output_current field_type st cm vm = Some oc -> ctype_of oc = I32.
Proof.
  unfold output_current. destruct (cdiv _ _); cbn [bind]; [|discriminate].
  intros H. injection H as <-. reflexivity.
Qed.

(** The two divisions of lines 116 and 126: their divisor, and when they
    have a result. *)
Lemma volt_divisor_value st :
  0 <= cap_voltage st < 2^32 ->
  value (volt_divisor st) = Z.shiftr (cap_voltage st) 13 /\
  0 <= Z.shiftr (cap_voltage st) 13 < 2^32 /\
  (Z.shiftr (cap_voltage st) 13 = 0 <-> cap_voltage st < 2^13).
Proof.
  intros Hc. unfold volt_divisor, cshr, u32, conv, SHIFT_VOLT.
  cbn [ctype_of value]. rewrite norm_idem, norm_u32_small by exact Hc.
  rewrite Z.shiftr_div_pow2 by lia.
  pose proof (Z.div_lt_upper_bound (cap_voltage st) (2^13) (2^19)
                ltac:(lia) ltac:(lia)) as Hu.
  pose proof (Z.div_pos (cap_voltage st) (2^13) ltac:(lia) ltac:(lia)) as Hl.
  split; [reflexivity|]. split; [lia|]. split.
  - intros H0. apply Z.div_small_iff in H0; lia.
  - intros Hs. apply Z.div_small. lia.
Qed.

Lemma cdiv_volt_divisor (a : cint) st :
  0 <= cap_voltage st < 2^32 ->
  cdiv a (volt_divisor st)
  = if Z.shiftr (cap_voltage st) 13 =? 0 then None
    else Some (CInt U32 (Z.quot (norm U32 (value a))
                                (Z.shiftr (cap_voltage st) 13))).
Proof.
  intros Hc. destruct (volt_divisor_value st Hc) as [Hv [Hr _]].
  unfold cdiv.
  assert (Hj : join (ctype_of a) (ctype_of (volt_divisor st)) = U32)
    by (destruct (ctype_of a); reflexivity).
  rewrite Hj. unfold conv. cbn [value ctype_eqb andb].
  rewrite Hv, (norm_u32_small (Z.shiftr (cap_voltage st) 13)) by exact Hr.
  reflexivity.
Qed.

Lemma new_cap_voltage_type st (ic oc w : cint) :
  new_cap_voltage field_type st ic oc = Some w -> ctype_of w = U32.
Proof.
  unfold new_cap_voltage. destruct (cdiv _ _); cbn [bind]; [|discriminate].
  intros H. injection H as <-. reflexivity.
Qed.

(** A completed call commits [hysteresis] of the clamped voltage. *)
Lemma virtcap_update_clamped st (cm vm ip eff : Z)
  (r : State fn * list (event fn)) :
  virtcap_update field_type st cm vm ip eff = Some r ->
  exists w, ctype_of w = U32 /\
            r = hysteresis field_type st (clamp field_type (settings st) w).
Proof.
  unfold virtcap_update.
  destruct (input_current field_type st ip eff) as [ic|];
    cbn [bind]; [|discriminate].
  destruct (output_current field_type st cm vm) as [oc|];
    cbn [bind]; [|discriminate].
  destruct (new_cap_voltage field_type st ic oc) as [w|] eqn:Hw;
    cbn [bind]; [|discriminate].
  intros H. injection H as <-. exists w.
  split; [exact (new_cap_voltage_type st ic oc w Hw) | reflexivity].
Qed.

(** The clamp of lines 156-163 puts the voltage between the two bounds, read
    as unsigned, whenever the lower bound is not above the upper one. *)
Lemma clamp_bounds (s : VirtCapNoFpSettings) (w : cint) :
  ctype_of w = U32 ->
  w32 (kMinCapVoltage s) <= w32 (kMaxCapVoltage s) ->
  w32 (kMinCapVoltage s) <= w32 (value (clamp field_type s w))
                         <= w32 (kMaxCapVoltage s).
Proof.
  intros Hw Hb. unfold clamp, cge, clt, cmp, fld, conv.
  cbn [ctype_of value]. rewrite Hw. cbn [join].
  rewrite !norm_u32_norm. change (norm U32 (value w)) with (w32 (value w)).
  fold (w32 (kMaxCapVoltage s)). fold (w32 (kMinCapVoltage s)).
  destruct (w32 (value w) >=? w32 (kMaxCapVoltage s)) eqn:E1; zbool E1.
  - cbn [value]. rewrite w32_idem. lia.
  - destruct (w32 (value w) <? w32 (kMinCapVoltage s)) eqn:E2; zbool E2.
    + cbn [value]. rewrite w32_idem. lia.
    + lia.
Qed.

(** Outside the switch-on branch, [hysteresis] commits the voltage it is
    given. *)
Lemma hysteresis_commits st (v : cint) :
  is_outputting st = true \/
  is_outputting (fst (hysteresis field_type st v)) = false ->
  cap_voltage (fst (hysteresis field_type st v)) = w32 (value v).
Proof.
  unfold hysteresis.
  destruct (cge _ _); [|reflexivity].
  destruct (is_outputting st) eqn:Eo; cbn [andb negb].
  - destruct (clt v _); reflexivity.
  - destruct (cgt v _); cbn [fst commit is_outputting cap_voltage];
      [intros [H|H]; discriminate | reflexivity].
Qed.

(** X1: the clamp invariant holds on every call but the one that switches
    the output on. *)
Lemma update_within_bounds_unless_switch_on st (cm vm ip eff : Z)
  (st' : State fn) (tr : list (event fn)) :
  virtcap_update field_type st cm vm ip eff = Some (st', tr) ->
  w32 (kMinCapVoltage (settings st)) <= w32 (kMaxCapVoltage (settings st)) ->
  is_outputting st = true \/ is_outputting st' = false ->
  w32 (kMinCapVoltage (settings st')) <= cap_voltage st'
                                      <= w32 (kMaxCapVoltage (settings st')).
Proof.
  intros Hu Hb Hno. apply virtcap_update_clamped in Hu.
  destruct Hu as [w [Hw Hr]].
  pose proof (hysteresis_frame field_type fn st
                (clamp field_type (settings st) w)) as Hf.
  pose proof (hysteresis_commits st (clamp field_type (settings st) w)) as Hc.
  rewrite <- Hr in Hf, Hc. cbn [fst] in Hf, Hc.
  destruct Hf as [Hs _]. rewrite Hs, Hc by exact Hno.
  apply clamp_bounds; assumption.
Qed.

(** C3: a completed call either leaves [is_outputting] as it was and does not
    call the callback, or changes it and calls the stored callback exactly
    once, with the new value of [is_outputting]. *)
Theorem callback_once_per_transition st (cm vm ip eff : Z)
  (st' : State fn) (tr : list (event fn)) :
  virtcap_update field_type st cm vm ip eff = Some (st', tr) ->
  (is_outputting st' = is_outputting st /\ tr = []) \/
  (is_outputting st' = negb (is_outputting st) /\
   tr = [Call (callback st) (is_outputting st')]).
Proof.
  intros Hu. apply virtcap_update_hysteresis in Hu. destruct Hu as [v Hv].
  pose proof (hysteresis_callback field_type fn st v) as Hc.
  rewrite <- Hv in Hc. exact Hc.
Qed.

(** C4: over any sequence of calls in which the counter stays below
    [kDiscretize] (one call whose increment does not reach it, or a whole
    debounce window), [is_outputting] keeps its value and the callback is not
    called, whatever the samples. *)
Theorem is_outputting_constant_within_window (xs : list sample) :
  forall st (st' : State fn) (tr : list (event fn)),
    0 <= discretize_cntr st ->
    discretize_cntr st + Z.of_nat (length xs)
      < w32 (kDiscretize (settings st)) ->
    run field_type st xs = Some (st', tr) ->
    is_outputting st' = is_outputting st /\ tr = [] /\
    discretize_cntr st' = discretize_cntr st + Z.of_nat (length xs).
Proof.
  induction xs as [|x xs IH]; intros st st' tr Hc Hlen Hrun.
  - cbn in Hrun. injection Hrun as <- <-. cbn [length Z.of_nat].
    repeat split; lia.
  - cbn [run] in Hrun. cbn [length] in Hlen. rewrite Nat2Z.inj_succ in Hlen.
    pose proof (w32_range (kDiscretize (settings st))) as Hk.
    destruct (update field_type st x) as [[st1 tr1]|] eqn:Hu;
      cbn [bind] in Hrun; [|discriminate].
    destruct (run field_type st1 xs) as [[st2 tr2]|] eqn:Hr;
      cbn [bind] in Hrun; [|discriminate].
    injection Hrun as <- <-.
    unfold update in Hu. apply virtcap_update_hysteresis in Hu.
    destruct Hu as [v Hv].
    assert (Hw : w32 (discretize_cntr st + 1) = discretize_cntr st + 1)
      by (apply w32_small; lia).
    rewrite (hysteresis_quiet field_type fn) in Hv by lia.
    injection Hv as -> ->.
    rewrite Hw in Hr.
    apply IH in Hr; cbn [commit discretize_cntr settings] in *; try lia.
    destruct Hr as [Ho [Ht Hn]]. cbn [is_outputting] in Ho.
    cbn [length]. rewrite Nat2Z.inj_succ. subst tr2.
    repeat split; [exact Ho | lia].
Qed.

(** A call that changes [is_outputting] resets the counter: by the window
    above, the next change is at least [kDiscretize] calls away. *)
Lemma change_resets_counter st x (st1 : State fn) (tr1 : list (event fn)) :
  update field_type st x = Some (st1, tr1) ->
  is_outputting st1 <> is_outputting st ->
  discretize_cntr st1 = 0 /\ settings st1 = settings st.
Proof.
  intros Hu Hch.
  pose proof Hu as Hu'. apply update_counter in Hu'. destruct Hu' as [Hs _].
  unfold update in Hu. apply virtcap_update_hysteresis in Hu.
  destruct Hu as [v Hv].
  pose proof (hysteresis_change_resets field_type fn st v) as Hz.
  rewrite <- Hv in Hz. cbn [fst] in Hz.
  split; [exact (Hz Hch) | exact Hs].
Qed.

(** C5: the call is the hysteresis of the clamp of the voltage that the
    integration law of the specification gives, operation by operation on
    32 bits, from the two currents of lines 116-126. *)
Theorem update_integrates_as_specified st (cm vm ip eff : Z) :
  virtcap_update field_type st cm vm ip eff
  = ic <- input_current field_type st ip eff ;;
    oc <- output_current field_type st cm vm ;;
    v <- spec_new_cap_voltage (ctype_eqb field_type I32) (cap_voltage st)
           (value ic) (value oc) (sample_period_us (settings st))
           (capacitance_uF (settings st)) ;;
    Some (hysteresis field_type st (clamp field_type (settings st) (u32 v))).
Proof.
  unfold virtcap_update.
  destruct (input_current field_type st ip eff) as [ic|] eqn:Hi;
    cbn [bind]; [|reflexivity].
  destruct (output_current field_type st cm vm) as [oc|] eqn:Ho;
    cbn [bind]; [|reflexivity].
  rewrite (new_cap_voltage_spec field_type fn st ic oc
             (input_current_type st ip eff ic Hi)
             (output_current_type st cm vm oc Ho)).
  destruct (spec_new_cap_voltage _ _ _ _ _ _); reflexivity.
Qed.

(** C6: while not outputting, the measured load current does not reach the
    result of the call: same state, same calls of the callback. *)
Theorem current_measured_ignored_when_off st (cm1 cm2 vm ip eff : Z) :
  is_outputting st = false ->
  virtcap_update field_type st cm1 vm ip eff
  = virtcap_update field_type st cm2 vm ip eff.
Proof.
  intros Hoff. unfold virtcap_update, output_current. rewrite Hoff.
  reflexivity.
Qed.

(** C8, as amended: with [kDiscretize] at least 1 (read as unsigned, as line
    167 compares it), the counter is within [0, kDiscretize) after
    [virtcap_init] and after every completed call, and a call adds one to it
    or, when that reaches [kDiscretize], sets it to 0. *)
Theorem discretize_cntr_invariant (s : VirtCapNoFpSettings) (cb : fn) st
  (xs : list sample) (st' : State fn) (tr : list (event fn)) :
  1 <= w32 (kDiscretize s) ->
  virtcap_init field_type s cb = Some st ->
  run field_type st xs = Some (st', tr) ->
  0 <= discretize_cntr st' < w32 (kDiscretize (settings st')) /\
  forall x (st'' : State fn) (tr' : list (event fn)),
    update field_type st' x = Some (st'', tr') ->
    discretize_cntr st''
    = if discretize_cntr st' + 1 <? w32 (kDiscretize (settings st'))
      then discretize_cntr st' + 1 else 0.
Proof.
  intros Hk Hinit Hrun.
  apply virtcap_init_state in Hinit.
  destruct Hinit as [Hc0 [_ [_ [_ [_ Hks]]]]].
  destruct (run_counter field_type fn xs st st' tr) as [Hs Hinv];
    [rewrite Hc0, Hks; lia | exact Hrun |].
  split; [exact Hinv|].
  intros x st'' tr' Hu. apply update_counter in Hu. destruct Hu as [_ Hn].
  rewrite Hn.
  pose proof (w32_range (kDiscretize (settings st'))) as Hr.
  rewrite (w32_small (discretize_cntr st' + 1)) by lia.
  destruct (discretize_cntr st' + 1 >=? w32 (kDiscretize (settings st')))
    eqn:E1; zbool E1;
    destruct (discretize_cntr st' + 1 <? w32 (kDiscretize (settings st')))
      eqn:E2; zbool E2; lia.
Qed.

(** C9: a completed call leaves the settings, the two derived constants, the
    stored callback and [is_enabled] as they were; only [cap_voltage],
    [is_outputting] and [discretize_cntr] may differ. *)
Theorem virtcap_update_frame st (cm vm ip eff : Z)
  (st' : State fn) (tr : list (event fn)) :
  virtcap_update field_type st cm vm ip eff = Some (st', tr) ->
  settings st' = settings st /\
  kScaleInput st' = kScaleInput st /\
  outputcap_scale_factor st' = outputcap_scale_factor st /\
  callback st' = callback st /\
  is_enabled st' = is_enabled st.
Proof.
  intros Hu. apply virtcap_update_hysteresis in Hu. destruct Hu as [v Hv].
  pose proof (hysteresis_frame field_type fn st v) as Hf.
  rewrite <- Hv in Hf. exact Hf.
Qed.

(** C10: the divisions of lines 116 and 126 divide by [cap_voltage >> 13];
    from [cap_voltage = 2^13] on the divisor is not zero and both have a
    result, and below [2^13] the divisor is zero, neither has one and the
    call has none. *)
Theorem volt_divisor_zero_below_8192 st (cm vm ip eff : Z) :
  0 <= cap_voltage st < 2^32 ->
  value (volt_divisor st) = Z.shiftr (cap_voltage st) 13 /\
  (2^13 <= cap_voltage st ->
     value (volt_divisor st) <> 0 /\
     (exists ic, input_current field_type st ip eff = Some ic) /\
     (exists oc, output_current field_type st cm vm = Some oc)) /\
  (cap_voltage st < 2^13 ->
     value (volt_divisor st) = 0 /\
     input_current field_type st ip eff = None /\
     output_current field_type st cm vm = None /\
     virtcap_update field_type st cm vm ip eff = None).
Proof.
  intros Hc. destruct (volt_divisor_value st Hc) as [Hv [Hr Hz]].
  split; [exact Hv|].
  unfold virtcap_update, input_current, output_current.
  rewrite !cdiv_volt_divisor by exact Hc. rewrite Hv. split.
  - intros Hge.
    assert (Hnz : Z.shiftr (cap_voltage st) 13 <> 0) by (rewrite Hz; lia).
    apply Z.eqb_neq in Hnz. rewrite Hnz. cbn [bind].
    split; [apply Z.eqb_neq; exact Hnz|]. split; eexists; reflexivity.
  - intros Hlt. apply Hz in Hlt. rewrite Hlt. cbn.
    repeat split; reflexivity.
Qed.

(** X2: line 128 holds the third division of the call, by
    [100 * capacitance_uF]: the call has a result exactly when neither
    divisor is zero. *)
Lemma virtcap_update_defined st (cm vm ip eff : Z) :
  0 <= cap_voltage st < 2^32 ->
  (virtcap_update field_type st cm vm ip eff <> None <->
   2^13 <= cap_voltage st /\ w32 (100 * capacitance_uF (settings st)) <> 0).
Proof.
  intros Hc. destruct (volt_divisor_value st Hc) as [Hv [Hr Hz]].
  unfold virtcap_update, input_current, output_current.
  rewrite !cdiv_volt_divisor by exact Hc.
  destruct (Z.shiftr (cap_voltage st) 13 =? 0) eqn:E; zbool E; cbn [bind].
  - split; [congruence | intros [Hge _]; apply Hz in E; lia].
  - rewrite new_cap_voltage_spec by reflexivity.
    unfold spec_new_cap_voltage.
    destruct (w32 (100 * capacitance_uF (settings st)) =? 0) eqn:E2;
      zbool E2; cbn [bind].
    + split; [congruence | intros [_ Hne]; contradiction].
    + split; [intros _; split; [|exact E2] | discriminate].
      destruct (Z_lt_ge_dec (cap_voltage st) (2^13)) as [Hlt|Hge]; [|lia].
      apply Hz in Hlt. contradiction.
Qed.

End Claims.

(** ** The code on the configuration above *)

Lemma virtcap_init_demo (ft : ctype) (k : Z) :
  0 <= k < 2^31 ->
  virtcap_init ft (demo_settings k) tt = Some (demo_state k).
Proof.
  intros Hk. unfold virtcap_init, demo_settings, demo_state.
  cbn [kLeakageCurrent kOnTimeLeakageCurrent upper_threshold_voltage
       lower_threshold_voltage sample_period_us capacitance_uF kMaxCapVoltage
       kMinCapVoltage kInitCapVoltage kDcoutputVoltage kDiscretize
       kOutputCap_uF kConverterEfficiency].
  assert (Hkk : to_field ft (fld ft k) = k).
  { unfold to_field, fld, conv. cbn [value]. rewrite norm_idem.
    destruct ft; [apply norm_u32_small | apply norm_i32_small]; lia. }
  rewrite Hkk. destruct ft; reflexivity.
Qed.

(** C1 fails on the code: initialised with a minimum of 2400 mV, thresholds
    of 2500 and 3000 mV and a start at 3000 mV, the first call with a
    charging sample switches the output on and commits
    [(786432877 >> 10) * 724 = 556032000], about 2121 mV, below
    [kMinCapVoltage = 629145600]. *)
Theorem clamp_lost_on_switch_on (ft : ctype) :
  virtcap_init ft (demo_settings 1) tt = Some (demo_state 1) /\
  exists st' : State unit,
    run ft (demo_state 1) [charging] = Some (st', [Call tt true]) /\
    is_outputting st' = true /\
    cap_voltage st' = 556032000 /\
    kMinCapVoltage (settings st') = 629145600 /\
    kMaxCapVoltage (settings st') = 865075200 /\
    ~ (kMinCapVoltage (settings st') <= cap_voltage st'
       <= kMaxCapVoltage (settings st')).
Proof.
  split; [apply virtcap_init_demo; lia|].
  destruct ft; eexists; (split; [vm_compute; reflexivity|]);
    cbn; repeat split; lia.
Qed.

Lemma callback_once_per_transition_witness :
  exists (st' : State unit) (tr : list (event unit)),
    virtcap_update U32 (demo_state 1) 0 0 1000 8192 = Some (st', tr) /\
    ((is_outputting st' = is_outputting (demo_state 1) /\ tr = []) \/
     (is_outputting st' = negb (is_outputting (demo_state 1)) /\
      tr = [Call (callback (demo_state 1)) (is_outputting st')])).
Proof.
  eexists. eexists. split; [vm_compute; reflexivity|].
  apply (callback_once_per_transition U32 unit (demo_state 1) 0 0 1000 8192).
  vm_compute. reflexivity.
Defined.

Lemma is_outputting_constant_within_window_witness :
  exists (st' : State unit) (tr : list (event unit)),
    run I32 (demo_state 4) [charging; charging; charging] = Some (st', tr) /\
    is_outputting st' = is_outputting (demo_state 4) /\ tr = [] /\
    discretize_cntr st' = discretize_cntr (demo_state 4) + 3.
Proof.
  eexists. eexists. split; [vm_compute; reflexivity|].
  apply (is_outputting_constant_within_window I32 unit
           [charging; charging; charging] (demo_state 4)).
  - cbn. lia.
  - vm_compute. reflexivity.
  - vm_compute. reflexivity.
Defined.

(** The integration law wraps where the exact quotient would not: a
    difference of 60000 gives [60000 * 2^13 * 10 mod 2^32 / 100000 = 6202],
    not [60000 * 2^13 * 10 / 100000 = 49152]. *)
Lemma integration_wraps (signed_fields : bool) :
  spec_new_cap_voltage signed_fields 786432000 60000 0 10 1000
  = Some (786432000 + 6202) /\
  60000 * 2^13 * 10 / (100 * 1000) = 49152.
Proof. destruct signed_fields; split; reflexivity. Qed.

Lemma current_measured_ignored_when_off_witness :
  virtcap_update I32 (demo_state 1) 5 3000 1000 8192
  = virtcap_update I32 (demo_state 1) 70000 3000 1000 8192.
Proof.
  apply (current_measured_ignored_when_off I32 unit (demo_state 1)).
  reflexivity.
Defined.

(** C8, as stated, fails for [kDiscretize = 0]: the counter is 0 after
    [virtcap_init] and after every call, and 0 is not below 0. *)
Lemma discretize_cntr_zero_period :
  virtcap_init U32 (demo_settings 0) tt = Some (demo_state 0) /\
  virtcap_init I32 (demo_settings 0) tt = Some (demo_state 0) /\
  ~ (0 <= discretize_cntr (demo_state 0)
     < kDiscretize (settings (demo_state 0))) /\
  exists st' : State unit,
    run U32 (demo_state 0) [idle] = Some (st', []) /\
    run I32 (demo_state 0) [idle] = Some (st', []) /\
    ~ (0 <= discretize_cntr st' < kDiscretize (settings st')).
Proof.
  split; [apply virtcap_init_demo; lia|].
  split; [apply virtcap_init_demo; lia|].
  split; [cbn; lia|].
  eexists. split; [vm_compute; reflexivity|].
  split; [vm_compute; reflexivity|]. cbn. lia.
Qed.

Lemma discretize_cntr_invariant_witness :
  exists (st' : State unit) (tr : list (event unit)),
    run U32 (demo_state 4) [charging; idle] = Some (st', tr) /\
    0 <= discretize_cntr st' < w32 (kDiscretize (settings st')) /\
    forall (x : sample) (st'' : State unit) (tr' : list (event unit)),
      update U32 st' x = Some (st'', tr') ->
      discretize_cntr st''
      = if discretize_cntr st' + 1 <? w32 (kDiscretize (settings st'))
        then discretize_cntr st' + 1 else 0.
Proof.
  eexists. eexists. split; [vm_compute; reflexivity|].
  eapply (discretize_cntr_invariant U32 unit (demo_settings 4) tt
            (demo_state 4) [charging; idle]).
  - vm_compute. discriminate.
  - vm_compute. reflexivity.
  - vm_compute. reflexivity.
Defined.

Lemma virtcap_update_frame_witness :
  exists (st' : State unit) (tr : list (event unit)),
    virtcap_update I32 (demo_state 1) 0 0 1000 8192 = Some (st', tr) /\
    settings st' = settings (demo_state 1) /\
    kScaleInput st' = kScaleInput (demo_state 1) /\
    outputcap_scale_factor st' = outputcap_scale_factor (demo_state 1) /\
    callback st' = callback (demo_state 1) /\
    is_enabled st' = is_enabled (demo_state 1).
Proof.
  eexists. eexists. split; [vm_compute; reflexivity|].
  eapply (virtcap_update_frame I32 unit (demo_state 1) 0 0 1000 8192).
  vm_compute. reflexivity.
Defined.

Lemma volt_divisor_zero_below_8192_witness :
  value (volt_divisor (demo_state 1)) <> 0 /\
  (exists ic, input_current U32 (demo_state 1) 1000 8192 = Some ic) /\
  (exists oc, output_current U32 (demo_state 1) 0 0 = Some oc).
Proof.
  apply (volt_divisor_zero_below_8192 U32 unit (demo_state 1) 0 0 1000 8192);
    cbn; lia.
Defined.

(** A configuration with [capacitance_uF = 0] has the divisor of line 128 at
    zero, whatever the voltage. *)
Lemma virtcap_update_zero_capacitance (ft : ctype) :
  let s := settings (demo_state 1) in
  let st := {| kScaleInput := 102911;
               outputcap_scale_factor := 724;
               cap_voltage := 786432000;
               is_outputting := false;
               is_enabled := false;
               discretize_cntr := 0;
               settings :=
                 {| upper_threshold_voltage := upper_threshold_voltage s;
                    lower_threshold_voltage := lower_threshold_voltage s;
                    sample_period_us := sample_period_us s;
                    capacitance_uF := 0;
                    kMaxCapVoltage := kMaxCapVoltage s;
                    kMinCapVoltage := kMinCapVoltage s;
                    kInitCapVoltage := kInitCapVoltage s;
                    kDcoutputVoltage := kDcoutputVoltage s;
                    kLeakageCurrent := kLeakageCurrent s;
                    kOnTimeLeakageCurrent := kOnTimeLeakageCurrent s;
                    kDiscretize := kDiscretize s;
                    kOutputCap_uF := kOutputCap_uF s;
                    kConverterEfficiency := kConverterEfficiency s |};
               callback := tt |} in
  2^13 <= cap_voltage st /\ update ft st charging = None.
Proof. destruct ft; split; (cbn; lia) || (vm_compute; reflexivity). Qed.

Lemma update_within_bounds_unless_switch_on_witness :
  exists (st' : State unit) (tr : list (event unit)),
    virtcap_update U32 (demo_state 4) 0 0 1000 8192 = Some (st', tr) /\
    w32 (kMinCapVoltage (settings st')) <= cap_voltage st'
                                        <= w32 (kMaxCapVoltage (settings st')).
Proof.
  eexists. eexists. split; [vm_compute; reflexivity|].
  eapply (update_within_bounds_unless_switch_on U32 unit (demo_state 4)
            0 0 1000 8192).
  - vm_compute. reflexivity.
  - vm_compute. discriminate.
  - right. reflexivity.
Defined.

Lemma virtcap_update_defined_witness :
  virtcap_update I32 (demo_state 1) 0 0 1000 8192 <> None <->
  2^13 <= cap_voltage (demo_state 1) /\
  w32 (100 * capacitance_uF (settings (demo_state 1))) <> 0.
Proof.
  apply (virtcap_update_defined I32 unit (demo_state 1) 0 0 1000 8192).
  cbn. lia.
Defined.

(** * Further properties of the code *)

(** ** SquareRootRounded *)

(** X3: from 1 on, the result is the one integer [k >= 0] with
    [k * k - k < n <= k * k + k], that is the integer nearest to the square
    root of [n]. *)
Theorem SquareRootRounded_unique_nearest (n : Z) :
  1 <= n < 2^32 ->
  exists r : Z,
    SquareRootRounded n = Some r /\
    forall k : Z, 0 <= k -> (k * k - k < n /\ n <= k * k + k <-> k = r).
Proof.
  intros Hn.
  destruct (SquareRootRounded_nearest n) as [r [Hr [Hb [Hnear Hstrict]]]];
    [lia|].
  specialize (Hstrict ltac:(lia)).
  exists r. split; [exact Hr|].
  intros k Hk. split.
  - intros [Hlo Hhi].
    destruct (Z_lt_ge_dec k r) as [Hlt|Hge].
    + assert (0 <= (r - k - 1) * (r + k)) by (apply Z.mul_nonneg_nonneg; lia).
      nia.
    + destruct (Z.eq_dec k r) as [Heq|Hne]; [exact Heq|].
      assert (0 <= (k - r - 1) * (k + r)) by (apply Z.mul_nonneg_nonneg; lia).
      nia.
  - intros ->. split; lia.
Qed.

Lemma SquareRootRounded_unique_nearest_witness :
  exists r : Z,
    SquareRootRounded 943718 = Some r /\
    forall k : Z, 0 <= k ->
      (k * k - k < 943718 /\ 943718 <= k * k + k <-> k = r).
Proof.
  apply (SquareRootRounded_unique_nearest 943718). lia.
Defined.

(** X4: the function is monotone, and its results lie in [0, 65536]. *)
Theorem SquareRootRounded_monotone (n m : Z) :
  0 <= n <= m -> m < 2^32 ->
  exists rn rm : Z,
    SquareRootRounded n = Some rn /\ SquareRootRounded m = Some rm /\
    0 <= rn <= rm /\ rm <= 65536.
Proof.
  intros Hnm Hm.
  destruct (SquareRootRounded_nearest n) as [rn [Hrn [Hbn [Hnn _]]]]; [lia|].
  destruct (SquareRootRounded_nearest m) as [rm [Hrm [Hbm [Hnm' _]]]]; [lia|].
  exists rn, rm. split; [exact Hrn|]. split; [exact Hrm|].
  split; [split; [lia|] | lia].
  destruct (Z_le_gt_dec rn rm) as [Hle|Hgt]; [exact Hle|].
  destruct (Z.eq_dec n 0) as [Hz|Hnz].
  - subst n. assert (H0 : SquareRootRounded 0 = Some 0) by reflexivity.
    rewrite H0 in Hrn. injection Hrn as <-. lia.
  - destruct (SquareRootRounded_nearest n) as [rn' [Hrn' [_ [_ Hs]]]]; [lia|].
    rewrite Hrn in Hrn'. injection Hrn' as <-. specialize (Hs ltac:(lia)).
    assert (0 <= (rn - rm - 1) * (rn + rm))
      by (apply Z.mul_nonneg_nonneg; lia).
    nia.
Qed.

Lemma SquareRootRounded_monotone_witness :
  exists rn rm : Z,
    SquareRootRounded 6 = Some rn /\ SquareRootRounded 4294967295 = Some rm /\
    0 <= rn <= rm /\ rm <= 65536.
Proof.
  apply (SquareRootRounded_monotone 6 4294967295); lia.
Defined.

(** X5: on a perfect square the result is its root. *)
Theorem SquareRootRounded_square (k : Z) :
  0 <= k <= 65535 -> SquareRootRounded (k * k) = Some k.
Proof.
  intros Hk.
  assert (Hsq : 0 <= k * k < 2^32) by nia.
  destruct (SquareRootRounded_nearest (k * k) Hsq)
    as [r [Hr [Hb [Hnear Hstrict]]]].
  rewrite Hr. f_equal.
  destruct (Z.eq_dec k 0) as [->|Hk0].
  - assert (H0 : SquareRootRounded (0 * 0) = Some 0) by reflexivity.
    rewrite H0 in Hr. injection Hr as <-. reflexivity.
  - specialize (Hstrict ltac:(nia)).
    destruct (Z_lt_ge_dec r k) as [Hlt|Hge].
    + assert (0 <= (k - r - 1) * (k + r)) by (apply Z.mul_nonneg_nonneg; lia).
      nia.
    + destruct (Z.eq_dec r k) as [Heq|Hne]; [exact Heq|].
      assert (0 <= (r - k - 1) * (r + k)) by (apply Z.mul_nonneg_nonneg; lia).
      nia.
Qed.

Lemma SquareRootRounded_square_witness :
  SquareRootRounded (1024 * 1024) = Some 1024.
Proof.
  apply (SquareRootRounded_square 1024). lia.
Defined.

(** ** Unit conversion *)

(** X6: [voltage_mv_to_logic] keeps the low 14 bits of its argument: the
    result is [(v mod 16384) * 2^18] on every argument, so that 16384 mV and
    above alias to lower voltages. *)
Theorem voltage_mv_to_logic_wraps (v : Z) :
  voltage_mv_to_logic v = (v mod 16384) * 262144.
Proof.
  rewrite voltage_mv_to_logic_eq.
  change (2^32) with (16384 * 262144).
  apply Z.mul_mod_distr_r; lia.
Qed.

(** ** virtcap_init *)

Section Init.

Variable field_type : ctype.
Variable fn : Type.

Lemma norm_small (t : ctype) (x : Z) : 0 <= x < 2^31 -> norm t x = x.
Proof.
  intros H. destruct t; [apply norm_u32_small | apply norm_i32_small]; lia.
Qed.

Lemma convert_current_total (x : Z) :
  exists l : Z, convert_current field_type x = Some l.
Proof.
  unfold convert_current. rewrite current_ua_to_logic_eq. cbn [bind].
  eexists. reflexivity.
Qed.

Lemma to_field_fld (x : Z) :
  0 <= x < 2^31 -> to_field field_type (fld field_type x) = x.
Proof.
  intros H. unfold to_field, fld, conv. cbn [value].
  rewrite norm_idem. apply norm_small. exact H.
Qed.

(** The division of line 92, by a capacitance that fits 31 bits. *)
Lemma cdiv_by_capacitance (a : cint) (c : Z) :
  ctype_of a = field_type -> 0 <= c < 2^31 ->
  cdiv a (fld field_type c)
  = if c =? 0 then None
    else Some (CInt field_type (Z.quot (norm field_type (value a)) c)).
Proof.
  intros Ha Hc. unfold cdiv, fld, conv. cbn [ctype_of value]. rewrite Ha.
  assert (Hj : join field_type field_type = field_type)
    by (destruct field_type; reflexivity).
  rewrite Hj, norm_idem, (norm_small field_type c) by exact Hc.
  destruct (c =? 0) eqn:E; [reflexivity|]. zbool E.
  assert (Hm1 : (c =? -1) = false) by (apply Z.eqb_neq; lia).
  rewrite Hm1, andb_false_r. reflexivity.
Qed.

Lemma pre_sqrt_type (c o : Z) :
  ctype_of (cmul (cmul (csub (fld field_type c) (fld field_type o))
                       (i32 1024)) (i32 1024)) = field_type.
Proof. destruct field_type; reflexivity. Qed.

(** X7: with a capacitance that fits 31 bits, [virtcap_init] has a result
    unless the capacitance is 0, whatever the other settings: an output
    capacitor as large as the storage capacitor, or larger, is accepted. *)
Theorem virtcap_init_defined (s : VirtCapNoFpSettings) (cb : fn) :
  0 <= capacitance_uF s < 2^31 ->
  (virtcap_init field_type s cb = None <-> capacitance_uF s = 0).
Proof.
  intros Hc. unfold virtcap_init.
  destruct (convert_current_total (kLeakageCurrent s)) as [leak ->].
  destruct (convert_current_total (kOnTimeLeakageCurrent s)) as [onl ->].
  cbn [bind capacitance_uF kOutputCap_uF].
  rewrite (to_field_fld (capacitance_uF s)) by exact Hc.
  rewrite cdiv_by_capacitance by (exact Hc || apply pre_sqrt_type).
  destruct (capacitance_uF s =? 0) eqn:E; zbool E; cbn [bind].
  - split; [intros _; exact E | reflexivity].
  - match goal with
    | |- context [SquareRootRounded ?n] =>
        destruct (SquareRootRounded_floor n) as [r [_ [_ Hr]]];
        [apply (norm_in_range U32) | rewrite Hr]
    end.
    cbn [bind]. split; [discriminate | intros H; contradiction].
Qed.

Lemma join_field_type :
  join field_type field_type = field_type /\
  join field_type I32 = field_type.
Proof. destruct field_type; split; reflexivity. Qed.

(** The dividend of line 92 when the product stays within 31 bits. *)
Lemma pre_sqrt_value (c o : Z) :
  0 <= o <= c -> c - o < 2048 -> c < 2^31 ->
  value (cmul (cmul (csub (fld field_type c) (fld field_type o))
                    (i32 1024)) (i32 1024))
  = (c - o) * 1048576.
Proof.
  intros Ho Hd Hc. destruct join_field_type as [Hj1 Hj2].
  unfold cmul, csub, arith, conv, fld, i32. cbn [ctype_of value].
  rewrite Hj1. cbn [ctype_of value]. rewrite Hj2. cbn [ctype_of value].
  rewrite Hj2. rewrite !norm_idem.
  rewrite (norm_small _ c), (norm_small _ o) by lia.
  rewrite (norm_small _ (c - o)) by lia.
  rewrite (norm_small I32 1024), (norm_small _ 1024) by lia.
  rewrite (norm_small _ ((c - o) * 1024)) by lia.
  rewrite (norm_small _ ((c - o) * 1024 * 1024)) by lia.
  ring.
Qed.

(** X8: when the output capacitor is not larger than the storage capacitor
    and their difference is below 2048 uF (the product of line 92 then stays
    within 31 bits), [outputcap_scale_factor] is the rounded square root of
    [(capacitance_uF - kOutputCap_uF) * 2^20 / capacitance_uF], and it is at
    most 1024. *)
Theorem virtcap_init_scale_factor (s : VirtCapNoFpSettings) (cb : fn)
  (st : State fn) :
  0 <= kOutputCap_uF s <= capacitance_uF s ->
  capacitance_uF s - kOutputCap_uF s < 2048 ->
  capacitance_uF s < 2^31 ->
  virtcap_init field_type s cb = Some st ->
  SquareRootRounded
    ((capacitance_uF s - kOutputCap_uF s) * 1048576 / capacitance_uF s)
  = Some (outputcap_scale_factor st) /\
  0 <= outputcap_scale_factor st <= 1024.
Proof.
  intros Ho Hd Hc. unfold virtcap_init.
  destruct (convert_current_total (kLeakageCurrent s)) as [leak ->].
  destruct (convert_current_total (kOnTimeLeakageCurrent s)) as [onl ->].
  cbn [bind capacitance_uF kOutputCap_uF].
  rewrite (to_field_fld (capacitance_uF s)) by lia.
  rewrite (to_field_fld (kOutputCap_uF s)) by lia.
  rewrite cdiv_by_capacitance by (lia || apply pre_sqrt_type).
  destruct (capacitance_uF s =? 0) eqn:E; zbool E; cbn [bind];
    [discriminate|].
  rewrite pre_sqrt_value by lia. unfold conv. cbn [value].
  set (n := (capacitance_uF s - kOutputCap_uF s) * 1048576) in *.
  assert (Hn : 0 <= n < 2^31) by (unfold n; lia).
  rewrite (norm_small _ n) by exact Hn.
  rewrite Z.quot_div_nonneg by lia.
  assert (Hq : 0 <= n / capacitance_uF s <= 1048576).
  { split; [apply Z.div_pos; lia|].
    apply Z.div_le_upper_bound; [lia|]. unfold n. nia. }
  rewrite (norm_small U32) by lia.
  destruct (SquareRootRounded_nearest (n / capacitance_uF s))
    as [r [Hr [Hb [Hnear _]]]]; [lia|].
  rewrite Hr. cbn [bind]. intros H. injection H as <-.
  cbn [outputcap_scale_factor]. split; [reflexivity|]. split; [lia|].
  destruct (Z_le_gt_dec r 1024) as [Hle|Hgt]; [exact Hle|].
  assert (0 <= (r - 1025) * (r + 1024)) by (apply Z.mul_nonneg_nonneg; lia).
  nia.
Qed.

Lemma convert_voltage_small (x : Z) :
  0 <= x < 8192 -> convert_voltage field_type x = 262144 * x.
Proof.
  intros Hx. unfold convert_voltage, to_field, fld, conv, u32.
  cbn [value].
  rewrite (norm_small field_type x), (norm_u32_small x) by lia.
  rewrite voltage_mv_to_logic_eq. rewrite (Z.mod_small (x * 262144)) by lia.
  rewrite (norm_u32_small (x * 262144)) by lia.
  rewrite (norm_small field_type) by lia. ring.
Qed.

(** X9: [virtcap_init] stores each voltage below 8192 mV multiplied by 2^18,
    so that thresholds and bounds keep their order, starts the capacitor at
    the converted [kInitCapVoltage], and starts with the output off and the
    counter at 0. *)
Theorem virtcap_init_converts (s : VirtCapNoFpSettings) (cb : fn)
  (st : State fn) :
  0 <= upper_threshold_voltage s < 8192 ->
  0 <= lower_threshold_voltage s < 8192 ->
  0 <= kMaxCapVoltage s < 8192 ->
  0 <= kMinCapVoltage s < 8192 ->
  0 <= kInitCapVoltage s < 8192 ->
  virtcap_init field_type s cb = Some st ->
  cap_voltage st = 262144 * kInitCapVoltage s /\
  upper_threshold_voltage (settings st) = 262144 * upper_threshold_voltage s /\
  lower_threshold_voltage (settings st) = 262144 * lower_threshold_voltage s /\
  kMaxCapVoltage (settings st) = 262144 * kMaxCapVoltage s /\
  kMinCapVoltage (settings st) = 262144 * kMinCapVoltage s /\
  is_outputting st = false /\ discretize_cntr st = 0.
Proof.
  intros Hu Hl Hmax Hmin Hinit. unfold virtcap_init.
  destruct (convert_current_total (kLeakageCurrent s)) as [leak ->].
  destruct (convert_current_total (kOnTimeLeakageCurrent s)) as [onl ->].
  cbn [bind].
  destruct (cdiv _ _) as [q|]; cbn [bind]; [|discriminate].
  destruct (SquareRootRounded _) as [root|]; cbn [bind]; [|discriminate].
  intros H. injection H as <-.
  cbn [cap_voltage settings is_outputting discretize_cntr
       upper_threshold_voltage lower_threshold_voltage kMaxCapVoltage
       kMinCapVoltage kInitCapVoltage].
  rewrite !convert_voltage_small by assumption.
  unfold fld, conv. cbn [value].
  rewrite (norm_small field_type) by lia.
  change (Z.pow_pos 2 32) with (2^32). rewrite Z.mod_small by lia.
  repeat split; reflexivity.
Qed.

End Init.

Lemma virtcap_init_defined_witness :
  virtcap_init U32 (demo_settings 1) tt = None <->
  capacitance_uF (demo_settings 1) = 0.
Proof.
  apply (virtcap_init_defined U32 unit (demo_settings 1) tt). cbn. lia.
Defined.

Lemma virtcap_init_scale_factor_witness :
  SquareRootRounded
    ((capacitance_uF (demo_settings 1) - kOutputCap_uF (demo_settings 1))
     * 1048576 / capacitance_uF (demo_settings 1))
  = Some (outputcap_scale_factor (demo_state 1)) /\
  0 <= outputcap_scale_factor (demo_state 1) <= 1024.
Proof.
  apply (virtcap_init_scale_factor I32 unit (demo_settings 1) tt
           (demo_state 1)); try (cbn; lia).
  vm_compute. reflexivity.
Defined.

Lemma virtcap_init_converts_witness :
  cap_voltage (demo_state 1) = 262144 * kInitCapVoltage (demo_settings 1) /\
  upper_threshold_voltage (settings (demo_state 1))
  = 262144 * upper_threshold_voltage (demo_settings 1) /\
  lower_threshold_voltage (settings (demo_state 1))
  = 262144 * lower_threshold_voltage (demo_settings 1) /\
  kMaxCapVoltage (settings (demo_state 1))
  = 262144 * kMaxCapVoltage (demo_settings 1) /\
  kMinCapVoltage (settings (demo_state 1))
  = 262144 * kMinCapVoltage (demo_settings 1) /\
  is_outputting (demo_state 1) = false /\ discretize_cntr (demo_state 1) = 0.
Proof.
  apply (virtcap_init_converts U32 unit (demo_settings 1) tt (demo_state 1));
    try (cbn; lia).
  vm_compute. reflexivity.
Defined.

(** ** virtcap_update *)

Section Calls.

Variable field_type : ctype.
Variable fn : Type.
Implicit Types (st : State fn) (x : sample).

Lemma clamp_type (s : VirtCapNoFpSettings) (w : cint) :
  ctype_of w = U32 -> ctype_of (clamp field_type s w) = U32.
Proof.
  intros Hw. unfold clamp.
  destruct (cge _ _); [reflexivity|]. destruct (clt _ _); [reflexivity|].
  exact Hw.
Qed.


(** The charge redistribution of line 181 with a factor of at most 1024. *)
Lemma switch_on_value (v : cint) (f : Z) :
  ctype_of v = U32 -> 0 <= f <= 1024 ->
  value (conv U32 (cmul (cshr v 10) (u32 f)))
  = w32 (value v) / 1024 * f /\
  w32 (value v) / 1024 * f <= w32 (value v).
Proof.
  intros Hv Hf.
  pose proof (w32_range (value v)) as Hr.
  assert (Hq : 0 <= w32 (value v) / 1024 < 2^22).
  { split; [apply Z.div_pos; lia|]. apply Z.div_lt_upper_bound; lia. }
  assert (Hle : w32 (value v) / 1024 * 1024 <= w32 (value v)).
  { rewrite Z.mul_comm. apply Z.mul_div_le. lia. }
  split; [|nia].
  unfold conv, cmul, arith, cshr, conv, u32. cbn [ctype_of value].
  rewrite Hv. cbn [join]. rewrite !norm_idem.
  change (norm U32 (value v)) with (w32 (value v)).
  rewrite Z.shiftr_div_pow2 by lia. change (2 ^ 10) with 1024.
  rewrite (norm_u32_small (w32 (value v) / 1024)) by lia.
  rewrite (norm_u32_small f) by lia.
  apply norm_u32_small. nia.
Qed.

(** X10: with [kMinCapVoltage <= kMaxCapVoltage] and a scale factor of at
    most 1024, no completed call leaves [cap_voltage] above
    [kMaxCapVoltage], the call that switches the output on included. *)
Theorem update_never_above_max st (cm vm ip eff : Z)
  (st' : State fn) (tr : list (event fn)) :
  w32 (kMinCapVoltage (settings st)) <= w32 (kMaxCapVoltage (settings st)) ->
  0 <= outputcap_scale_factor st <= 1024 ->
  virtcap_update field_type st cm vm ip eff = Some (st', tr) ->
  0 <= cap_voltage st' <= w32 (kMaxCapVoltage (settings st')).
Proof.
  intros Hb Hf Hu. apply virtcap_update_clamped in Hu.
  destruct Hu as [w [Hw Hr]].
  pose proof (clamp_bounds field_type (settings st) w Hw Hb) as Hc.
  pose proof (clamp_type (settings st) w Hw) as Ht.
  set (v := clamp field_type (settings st) w) in *.
  pose proof (w32_range (value v)) as Hv.
  destruct (switch_on_value v (outputcap_scale_factor st) Ht Hf) as [Hs Hle].
  assert (Hq : 0 <= w32 (value v) / 1024) by (apply Z.div_pos; lia).
  revert Hr. unfold hysteresis.
  repeat match goal with
         | |- context [if ?b then _ else _] => destruct b
         end;
    intros H; injection H as -> _;
    cbn [commit cap_voltage settings]; rewrite ?Hs;
    try change (value (conv U32 v)) with (w32 (value v)); nia.
Qed.


End Calls.

Section Sequences.

Variable field_type : ctype.
Variable fn : Type.
Implicit Types (st : State fn) (x : sample).

(** One call, seen from the counter: either it only counts, or the counter
    had reached [kDiscretize - 1], is reset, and at most one call of the
    callback is made. *)
Lemma update_step st x (st1 : State fn) (tr1 : list (event fn)) :
  0 <= discretize_cntr st < w32 (kDiscretize (settings st)) ->
  update field_type st x = Some (st1, tr1) ->
  settings st1 = settings st /\
  ((discretize_cntr st + 1 < w32 (kDiscretize (settings st)) /\
    discretize_cntr st1 = discretize_cntr st + 1 /\ tr1 = []) \/
   (discretize_cntr st + 1 = w32 (kDiscretize (settings st)) /\
    discretize_cntr st1 = 0 /\ (length tr1 <= 1)%nat)).
Proof.
  intros Hc Hu.
  pose proof (w32_range (kDiscretize (settings st))) as Hk.
  pose proof (update_counter field_type fn st x st1 tr1 Hu) as [Hs Hn].
  rewrite (w32_small (discretize_cntr st + 1)) in Hn by lia.
  split; [exact Hs|].
  unfold update in Hu. apply virtcap_update_hysteresis in Hu.
  destruct Hu as [v Hv].
  destruct (discretize_cntr st + 1 >=? w32 (kDiscretize (settings st)))
    eqn:E; zbool E.
  - right. split; [lia|]. split; [exact Hn|].
    pose proof (hysteresis_callback field_type fn st v) as Hcb.
    rewrite <- Hv in Hcb.
    destruct Hcb as [[_ ->] | [_ ->]]; cbn; lia.
  - left. split; [lia|]. split; [exact Hn|].
    rewrite (hysteresis_quiet field_type fn) in Hv
      by (rewrite w32_small; lia).
    injection Hv as _ ->. reflexivity.
Qed.

(** X12: over a sequence of calls the counter counts modulo [kDiscretize]:
    started below [kDiscretize], it ends at the sum of its start and the
    number of calls, reduced modulo [kDiscretize]. *)
Theorem discretize_cntr_after_run (xs : list sample) :
  forall st (st' : State fn) (tr : list (event fn)),
    0 <= discretize_cntr st < w32 (kDiscretize (settings st)) ->
    run field_type st xs = Some (st', tr) ->
    discretize_cntr st'
    = (discretize_cntr st + Z.of_nat (length xs))
        mod w32 (kDiscretize (settings st)).
Proof.
  induction xs as [|x xs IH]; intros st st' tr Hc Hrun.
  - cbn in Hrun. injection Hrun as <- _. cbn [length Z.of_nat].
    rewrite Z.add_0_r. symmetry. apply Z.mod_small. exact Hc.
  - cbn [run] in Hrun.
    destruct (update field_type st x) as [[st1 tr1]|] eqn:Hu;
      cbn [bind] in Hrun; [|discriminate].
    destruct (run field_type st1 xs) as [[st2 tr2]|] eqn:Hr;
      cbn [bind] in Hrun; [|discriminate].
    injection Hrun as <- _.
    destruct (update_step st x st1 tr1 Hc Hu) as [Hs Hcase].
    cbn [length]. rewrite Nat2Z.inj_succ.
    set (K := w32 (kDiscretize (settings st))) in *.
    assert (H1 : discretize_cntr st1 = (discretize_cntr st + 1) mod K).
    { destruct Hcase as [[Hlt [-> _]] | [Heq [-> _]]].
      - symmetry. apply Z.mod_small. lia.
      - rewrite Heq. symmetry. apply Z.mod_same. lia. }
    apply IH in Hr.
    + rewrite Hr, Hs. fold K. rewrite H1, Zplus_mod_idemp_l.
      f_equal. lia.
    + rewrite Hs. fold K. rewrite H1. apply Z.mod_pos_bound. lia.
Qed.

(** X13: over any sequence of calls, the calls of the callback all go
    through the stored callback and alternate: the first one carries the
    negation of the initial [is_outputting], each next one the negation of
    the one before, and [is_outputting] ends at the argument of the last. *)
Theorem callbacks_alternate (xs : list sample) :
  forall st (st' : State fn) (tr : list (event fn)),
    run field_type st xs = Some (st', tr) ->
    alternating (callback st) (is_outputting st) tr /\
    is_outputting st' = last_arg (is_outputting st) tr /\
    callback st' = callback st.
Proof.
  induction xs as [|x xs IH]; intros st st' tr Hrun.
  - cbn in Hrun. injection Hrun as <- <-. cbn. auto.
  - cbn [run] in Hrun.
    destruct (update field_type st x) as [[st1 tr1]|] eqn:Hu;
      cbn [bind] in Hrun; [|discriminate].
    destruct (run field_type st1 xs) as [[st2 tr2]|] eqn:Hr;
      cbn [bind] in Hrun; [|discriminate].
    injection Hrun as <- <-.
    apply IH in Hr. destruct Hr as [Halt [Hlast Hcb]].
    unfold update in Hu. apply virtcap_update_hysteresis in Hu.
    destruct Hu as [v Hv].
    pose proof (hysteresis_frame field_type fn st v) as Hf.
    pose proof (hysteresis_callback field_type fn st v) as Hc.
    rewrite <- Hv in Hf, Hc. cbn [fst] in Hf.
    destruct Hf as [_ [_ [_ [Hcb1 _]]]]. rewrite Hcb1 in Halt, Hcb.
    destruct Hc as [[Ho ->] | [Ho ->]]; cbn [app alternating last_arg].
    + rewrite Ho in Halt, Hlast. auto.
    + rewrite Ho. rewrite Ho in Halt, Hlast. auto.
Qed.

(** X14: over a sequence of [n] calls started with the counter at [c], below
    [kDiscretize], the number [m] of calls of the callback satisfies
    [kDiscretize * m + c' <= c + n], with [c'] the final counter: at most one
    call of the callback per [kDiscretize] calls. *)
Theorem callbacks_rate_limited (xs : list sample) :
  forall st (st' : State fn) (tr : list (event fn)),
    0 <= discretize_cntr st < w32 (kDiscretize (settings st)) ->
    run field_type st xs = Some (st', tr) ->
    w32 (kDiscretize (settings st)) * Z.of_nat (length tr)
      + discretize_cntr st'
    <= discretize_cntr st + Z.of_nat (length xs).
Proof.
  induction xs as [|x xs IH]; intros st st' tr Hc Hrun.
  - cbn in Hrun. injection Hrun as <- <-. cbn [length Z.of_nat]. lia.
  - cbn [run] in Hrun.
    destruct (update field_type st x) as [[st1 tr1]|] eqn:Hu;
      cbn [bind] in Hrun; [|discriminate].
    destruct (run field_type st1 xs) as [[st2 tr2]|] eqn:Hr;
      cbn [bind] in Hrun; [|discriminate].
    injection Hrun as <- <-.
    destruct (update_step st x st1 tr1 Hc Hu) as [Hs Hcase].
    rewrite length_app, Nat2Z.inj_add. cbn [length].
    rewrite Nat2Z.inj_succ.
    apply IH in Hr; [|rewrite Hs; destruct Hcase as [[? [? _]]|[? [? _]]]; lia].
    rewrite Hs in Hr.
    destruct Hcase as [[Hlt [H1 ->]] | [Heq [H1 Hlen]]].
    + cbn [length Z.of_nat]. lia.
    + nia.
Qed.

End Sequences.

Section Currents.

Variable field_type : ctype.
Variable fn : Type.
Implicit Types (st : State fn).

Lemma cdiv_type (a b q : cint) :
  cdiv a b = Some q -> ctype_of q = join (ctype_of a) (ctype_of b).
Proof.
  unfold cdiv. destruct (_ =? 0); [discriminate|].
  destruct (_ && _); [discriminate|].
  intros H. injection H as <-. reflexivity.
Qed.

Lemma join_u32_r (t : ctype) : join t U32 = U32.
Proof. destruct t; reflexivity. Qed.

Lemma norm_i32_congr (a b : Z) : w32 a = w32 b -> norm I32 a = norm I32 b.
Proof.
  intros H. rewrite (norm_i32_residue a b H).
  symmetry. apply norm_i32_residue. reflexivity.
Qed.

(** [(q * k) >> 13] as assigned to an [int32_t], for an unsigned [q]. *)
Lemma scaled_current_range (q k : cint) :
  ctype_of q = U32 ->
  0 <= value (conv I32 (cshr (cmul q k) SHIFT_VOLT)) < 2^19.
Proof.
  intros Hq. unfold conv, cshr, cmul, arith, conv, SHIFT_VOLT.
  cbn [ctype_of value]. rewrite Hq. cbn [join]. rewrite !norm_idem.
  match goal with
  | |- context [Z.shiftr (norm U32 ?e) 13] =>
      pose proof (norm_in_range U32 e) as Hr; cbn [in_range] in Hr;
      set (m := norm U32 e) in *
  end.
  rewrite Z.shiftr_div_pow2 by lia.
  assert (Hd : 0 <= m / 2^13 < 2^19).
  { split; [apply Z.div_pos; lia|]. apply Z.div_lt_upper_bound; lia. }
  rewrite norm_i32_small by lia. exact Hd.
Qed.

(** X15: the load current of line 126 is never negative and is below 2^19,
    whatever the sign of [current_measured]; the harvested current of lines
    116-118 is below 2^19 before the leakage is taken off, so that with a
    leakage within 31 bits it lies in [-leakage, 2^19 - leakage). *)
Theorem currents_bounded st (cm vm ip eff : Z) (ic oc : cint) :
  0 <= kLeakageCurrent (settings st) < 2^31 ->
  input_current field_type st ip eff = Some ic ->
  output_current field_type st cm vm = Some oc ->
  - kLeakageCurrent (settings st) <= value ic
    < 2^19 - kLeakageCurrent (settings st) /\
  0 <= value oc < 2^19.
Proof.
  intros Hl Hi Ho. split.
  - revert Hi. unfold input_current.
    destruct (cdiv _ (volt_divisor st)) as [q|] eqn:Hq;
      cbn [bind]; [|discriminate].
    apply cdiv_type in Hq. rewrite join_u32_r in Hq.
    intros H. injection H as <-.
    pose proof (scaled_current_range q (u32 eff) Hq) as Hr.
    set (pre := conv I32 (cshr (cmul q (u32 eff)) SHIFT_VOLT)) in *.
    set (leak := kLeakageCurrent (settings st)) in *.
    assert (Hv : value (conv I32 (csub pre (fld field_type leak)))
                 = value pre - leak).
    { unfold conv at 1. unfold csub, arith, conv, fld.
      cbn [ctype_of value].
      rewrite <- (norm_i32_small (value pre - leak)) by lia.
      apply norm_i32_congr. residue. }
    rewrite Hv. lia.
  - revert Ho. unfold output_current.
    destruct (cdiv _ (volt_divisor st)) as [q|] eqn:Hq;
      cbn [bind]; [|discriminate].
    apply cdiv_type in Hq. rewrite join_u32_r in Hq.
    intros H. injection H as <-. apply scaled_current_range. exact Hq.
Qed.

(** X16: when the product [d * 2^13 * sample_period_us] of the net current
    [d = input_current - output_current] fits 31 bits signed and
    [100 * capacitance_uF] is positive and fits 31 bits, line 128 adds to
    [cap_voltage] the exact quotient, truncated toward zero, of
    [d * 2^13 * sample_period_us] by [100 * capacitance_uF]; with unsigned
    settings fields this needs [d] not negative. *)
Theorem integration_exact st (ic oc : cint) :
  ctype_of ic = I32 -> ctype_of oc = I32 ->
  let d := value ic - value oc in
  let n := d * 8192 * sample_period_us (settings st) in
  - 2^31 <= n < 2^31 ->
  0 < 100 * capacitance_uF (settings st) < 2^31 ->
  field_type = I32 \/ 0 <= n ->
  new_cap_voltage field_type st ic oc
  = Some (u32 (cap_voltage st
               + Z.quot n (100 * capacitance_uF (settings st)))).
Proof.
  intros Hi Ho d n Hn Hc Hsign.
  rewrite new_cap_voltage_spec by assumption.
  unfold spec_new_cap_voltage. fold d.
  set (c := 100 * capacitance_uF (settings st)) in *.
  rewrite (w32_small c) by lia.
  assert (Hc0 : (c =? 0) = false) by (apply Z.eqb_neq; lia).
  rewrite Hc0.
  assert (Hnum : w32 (w32 (Z.shiftl (w32 d) 13)
                      * sample_period_us (settings st)) = w32 n).
  { unfold n. rewrite Z.shiftl_mul_pow2 by lia. change (2 ^ 13) with 8192.
    residue. }
  rewrite Hnum. cbn [bind]. f_equal. unfold u32. f_equal.
  change (norm U32) with w32. rewrite w32_idem.
  destruct Hsign as [-> | Hpos]; cbn [ctype_eqb].
  - rewrite signed32_w32, <- !norm_i32_signed32.
    rewrite (norm_i32_small n), (norm_i32_small c) by lia. reflexivity.
  - assert (Hq : w32 n / c = Z.quot n c).
    { rewrite (w32_small n) by lia. symmetry.
      apply Z.quot_div_nonneg; lia. }
    destruct field_type; cbn [ctype_eqb].
    + rewrite Hq. reflexivity.
    + rewrite signed32_w32, <- !norm_i32_signed32.
      rewrite (norm_i32_small n), (norm_i32_small c) by lia. reflexivity.
Qed.

End Currents.

(** ** The further properties on the configuration above *)

Lemma update_never_above_max_witness :
  exists (st' : State unit) (tr : list (event unit)),
    virtcap_update U32 (demo_state 1) 0 0 1000 8192 = Some (st', tr) /\
    0 <= cap_voltage st' <= w32 (kMaxCapVoltage (settings st')).
Proof.
  eexists. eexists. split; [vm_compute; reflexivity|].
  eapply (update_never_above_max U32 unit (demo_state 1) 0 0 1000 8192).
  - vm_compute. discriminate.
  - cbn. lia.
  - vm_compute. reflexivity.
Defined.


Lemma discretize_cntr_after_run_witness :
  exists (st' : State unit) (tr : list (event unit)),
    run U32 (demo_state 4) [charging; idle; idle; charging; idle]
    = Some (st', tr) /\
    discretize_cntr st'
    = (discretize_cntr (demo_state 4) + 5)
        mod w32 (kDiscretize (settings (demo_state 4))).
Proof.
  eexists. eexists. split; [vm_compute; reflexivity|].
  eapply (discretize_cntr_after_run U32 unit
            [charging; idle; idle; charging; idle] (demo_state 4)).
  - cbn. lia.
  - vm_compute. reflexivity.
Defined.

Lemma callbacks_alternate_witness :
  exists (st' : State unit) (tr : list (event unit)),
    run I32 (demo_state 1) [charging; idle] = Some (st', tr) /\
    tr = [Call tt true; Call tt false] /\
    alternating (callback (demo_state 1)) (is_outputting (demo_state 1)) tr /\
    is_outputting st' = last_arg (is_outputting (demo_state 1)) tr /\
    callback st' = callback (demo_state 1).
Proof.
  eexists. eexists. split; [vm_compute; reflexivity|].
  split; [reflexivity|].
  apply (callbacks_alternate I32 unit [charging; idle] (demo_state 1)).
  vm_compute. reflexivity.
Defined.

Lemma callbacks_rate_limited_witness :
  exists (st' : State unit) (tr : list (event unit)),
    run U32 (demo_state 4) [charging; idle; idle; charging; idle]
    = Some (st', tr) /\
    w32 (kDiscretize (settings (demo_state 4))) * Z.of_nat (length tr)
      + discretize_cntr st'
    <= discretize_cntr (demo_state 4) + 5.
Proof.
  eexists. eexists. split; [vm_compute; reflexivity|].
  apply (callbacks_rate_limited U32 unit
           [charging; idle; idle; charging; idle] (demo_state 4)).
  - cbn. lia.
  - vm_compute. reflexivity.
Defined.

Lemma currents_bounded_witness :
  exists ic oc : cint,
    input_current U32 (demo_state 1) 1000 8192 = Some ic /\
    output_current U32 (demo_state 1) (-5) 3000 = Some oc /\
    - kLeakageCurrent (settings (demo_state 1)) <= value ic
      < 2^19 - kLeakageCurrent (settings (demo_state 1)) /\
    0 <= value oc < 2^19.
Proof.
  eexists. eexists. split; [vm_compute; reflexivity|].
  split; [vm_compute; reflexivity|].
  apply (currents_bounded U32 unit (demo_state 1) (-5) 3000 1000 8192).
  - cbn. lia.
  - vm_compute. reflexivity.
  - vm_compute. reflexivity.
Defined.

Lemma integration_exact_witness :
  new_cap_voltage I32 (demo_state 1) (i32 (-500)) (i32 0)
  = Some (u32 (786432000 + Z.quot (-500 * 8192 * 10) (100 * 1000))).
Proof.
  apply (integration_exact I32 unit (demo_state 1) (i32 (-500)) (i32 0)).
  - reflexivity.
  - reflexivity.
  - vm_compute. split; discriminate || reflexivity.
  - cbn. lia.
  - left. reflexivity.
Defined.
